(** * The per-file upload lifecycle of the file uploader

    A shallow embedding of the uploader component ([App], functions
    [uploadFile], [validateAndAddFiles], [removeFile], [retryUpload] and the
    status section of the file card) and of the backend route
    [POST /get-upload-url], followed by the properties of the lifecycle.
    The rest of the component (what a card displays, the preview handles),
    the route [POST /confirm-upload] and the [handleSubmit] of the form
    version of the component are embedded after the lifecycle, with their
    properties at the end.

    Conventions of the embedding.
    - The React state [files] is an array: a [list FileInfo], order and
      duplicates kept.  Every [setFiles (prev => prev.map (...))] is a
      function on that list, applied to the state current when React runs it.
    - An [async] call of [uploadFile] is the ordered trace of the effects it
      performs (state updaters and network requests), computed from the
      outcomes the network gives to its three [await]s.
    - The event loop is a sequence of turns: a user action, or one attempt
      in flight delivering its next updater ([System], [act]).
    - Byte counts are naturals ([N]); [progress] is a JavaScript number that
      is an integer, [Infinity] or [NaN].  Divisions are exact on byte counts
      below 2^45, where a double holds [loaded * 100] without rounding. *)

From Stdlib Require Import List String Ascii Arith NArith Bool Lia.
From Stdlib Require Import DecimalString DecimalN DecimalPos.
From Stdlib Require Finite.
From Stdlib Require Import Permutation.
Import ListNotations.
Local Open Scope string_scope.
Local Open Scope N_scope.

(** ** JavaScript values the component handles *)

(** The result of [Math.round (a / b)] on byte counts. *)
Inductive jsnum : Type :=
| Num (n : N)
| Infinity
| NaN.

(** A property read from a parsed JSON body: absent, or a string. *)
Inductive jsfield : Type :=
| Undefined
| Str (s : string).

(** [`${v}`]: how a template literal prints a property. *)
Definition template (v : jsfield) : string :=
  match v with
  | Undefined => "undefined"
  | Str s => s
  end.

(** A value caught by [catch (error)]: an [Error] instance with its
    [message], or any other thrown value. *)
Inductive thrown : Type :=
| ErrorInstance (message : string)
| OtherValue.

(** ** Data model *)

Module File.
(** The browser's [File]: what the component reads of it. *)
Record t : Type := mk { name : string; size : N; type : string }.
End File.

Inductive Status : Type := pending | uploading | success | error.

Definition Status_eqb (a b : Status) : bool :=
  match a, b with
  | pending, pending | uploading, uploading
  | success, success | error, error => true
  | _, _ => false
  end.

(** [interface FileInfo]; the optional properties are options. *)
Record FileInfo : Type := mkFileInfo {
  file : File.t;
  previewUrl : string;
  id : string;
  name : string;
  size : N;
  type : string;
  status : Status;
  progress : jsnum;
  url : option string;
  errorMessage : option string
}.

(** ** The state updaters of [uploadFile]

    Each is the object spread written at the corresponding [setFiles]. *)

Inductive update : Type :=
| SetUploading                    (* { ...f, status: "uploading", progress: 0 } *)
| SetProgress (percent : jsnum)   (* { ...f, progress: percentCompleted } *)
| SetSuccess (location : string)  (* { ...f, status: "success", progress: 100, url } *)
| SetError (message : string).    (* { ...f, status: "error", progress: 0, errorMessage } *)

Definition spread (u : update) (f : FileInfo) : FileInfo :=
  match u with
  | SetUploading =>
      mkFileInfo (file f) (previewUrl f) (id f) (name f) (size f) (type f)
                 uploading (Num 0) (url f) (errorMessage f)
  | SetProgress p =>
      mkFileInfo (file f) (previewUrl f) (id f) (name f) (size f) (type f)
                 (status f) p (url f) (errorMessage f)
  | SetSuccess u =>
      mkFileInfo (file f) (previewUrl f) (id f) (name f) (size f) (type f)
                 success (Num 100) (Some u) (errorMessage f)
  | SetError m =>
      mkFileInfo (file f) (previewUrl f) (id f) (name f) (size f) (type f)
                 error (Num 0) (url f) (Some m)
  end.

(** [prev.map ((f) => f.id === i ? { ...f, ... } : f)] *)
Definition setFiles (i : string) (u : update) (prev : list FileInfo)
  : list FileInfo :=
  map (fun f => if String.eqb (id f) i then spread u f else f) prev.

(** ** Progress notifications *)

Record ProgressEvent : Type := mkProgress {
  loaded : N;
  total : option N     (* [undefined] when the length is not computable *)
}.

(** [Math.round (n / d)]: nearest integer, halves upwards.  The code
    divides two doubles and rounds the quotient; that is the value below
    whenever [n < 2^52] and [d < 2^53]: both are then held exactly, and the
    rounded quotient reaches a half only where the exact one does.  Beyond
    that range the two can differ by one; the properties of the
    percentages are stated within it ([exact_percent]). *)
Definition round_div (n d : N) : jsnum :=
  if d =? 0 then (if n =? 0 then NaN else Infinity)
  else Num ((2 * n + d) / (2 * d)).

(** [progressEvent.total || fileInfo.size]: [undefined] and [0] are falsy. *)
Definition total_or (t : option N) (sz : N) : N :=
  match t with
  | Some n => if n =? 0 then sz else n
  | None => sz
  end.

Definition percentCompleted (ev : ProgressEvent) (fileInfo : FileInfo) : jsnum :=
  round_div (loaded ev * 100) (total_or (total ev) (size fileInfo)).

(** ** The effects of an upload attempt *)

Inductive effect : Type :=
| Updater (i : string) (u : update)          (* a [setFiles] call *)
| Fetch (filename filetype : string)         (* POST /get-upload-url *)
| Put (target : jsfield) (contentType : string).  (* axios.put *)

(** What the network answers to one attempt. *)
Record Response : Type := mkResponse {
  ok : bool;
  statusText : string;
  (* [response.json ()]: the body's [bucket], [key] and [url], or a rejection *)
  json : thrown + (jsfield * jsfield * jsfield)
}.

Record Network : Type := mkNetwork {
  fetched : thrown + Response;         (* [await fetch (...)] *)
  events : list ProgressEvent;         (* notifications during the transfer *)
  transferred : option thrown          (* [await axios.put (...)]: [None] resolves *)
}.

(** A computation that performs effects and then returns or throws. *)
Definition M (A : Type) : Type := (list effect * (thrown + A))%type.

Definition ret {A} (a : A) : M A := ([], inr a).
Definition throw {A} (e : thrown) : M A := ([], inl e).
Definition perform (x : effect) : M unit := ([x], inr tt).

Definition bind {A B} (m : M A) (k : A -> M B) : M B :=
  match m with
  | (tr, inl e) => (tr, inl e)
  | (tr, inr a) => let (tr', r) := k a in ((tr ++ tr')%list, r)
  end.

Definition try_catch {A} (body : M A) (handler : thrown -> M A) : M A :=
  match body with
  | (tr, inl e) => let (tr', r) := handler e in ((tr ++ tr')%list, r)
  | (tr, inr a) => (tr, inr a)
  end.

Definition lift {A} (r : thrown + A) : M A := ([], r).

Notation "x <- m ;; k" := (bind m (fun x => k))
  (at level 61, m at next level, right associativity).
Notation "m ;; k" := (bind m (fun _ => k))
  (at level 61, right associativity).

Fixpoint for_each {A} (l : list A) (body : A -> M unit) : M unit :=
  match l with
  | [] => ret tt
  | a :: l' => body a ;; for_each l' body
  end.

(** [const uploadFile = async (fileInfo) => { try { ... } catch (error) { ... } }] *)
Definition uploadFile (net : Network) (fileInfo : FileInfo) : M unit :=
  try_catch
    (perform (Updater (id fileInfo) SetUploading) ;;
     perform (Fetch (name fileInfo) (type fileInfo)) ;;
     response <- lift (fetched net) ;;
     (if negb (ok response)
      then throw (ErrorInstance
                    ("Failed to get upload URL: " ++ statusText response))
      else ret tt) ;;
     presignedUrl <- lift (json response) ;;
     let '(bucket, key, target) := presignedUrl in
     perform (Put target (type fileInfo)) ;;
     for_each (events net)
       (fun progressEvent =>
          perform (Updater (id fileInfo)
                     (SetProgress (percentCompleted progressEvent fileInfo)))) ;;
     lift (match transferred net with
           | Some e => inl e
           | None => inr tt
           end) ;;
     perform (Updater (id fileInfo)
                (SetSuccess ("https://" ++ template bucket
                             ++ ".s3.amazonaws.com/" ++ template key))))
    (fun error =>
       perform (Updater (id fileInfo)
                  (SetError (match error with
                             | ErrorInstance message => message
                             | OtherValue => "Failed to upload file"
                             end)))).

(** The effects of the attempt, in order. *)
Definition attempt (net : Network) (fileInfo : FileInfo) : list effect :=
  fst (uploadFile net fileInfo).

(** The part of [uploadFile] that runs inside the caller's event handler:
    an [async] function runs up to its first [await], here the [fetch]. *)
Definition uploadFile_started (fileInfo : FileInfo) : list effect :=
  [Updater (id fileInfo) SetUploading; Fetch (name fileInfo) (type fileInfo)].

(** React applies the queued updaters in the order of the calls. *)
Fixpoint run (tr : list effect) (files : list FileInfo) : list FileInfo :=
  match tr with
  | [] => files
  | Updater i u :: tr' => run tr' (setFiles i u files)
  | _ :: tr' => run tr' files
  end.

(** The updates a trace carries, in order. *)
Fixpoint updates (tr : list effect) : list update :=
  match tr with
  | [] => []
  | Updater _ u :: tr' => u :: updates tr'
  | _ :: tr' => updates tr'
  end.

(** ** Intake: [validateAndAddFiles] *)

Definition MAX_FILE_SIZE : N := 15 * 1024 * 1024.

Definition ALLOWED_TYPES : list string :=
  ["image/jpeg"; "image/png"; "image/gif"; "video/mp4"; "video/quicktime"].

(** [Array.prototype.includes] on strings. *)
Definition includes (l : list string) (s : string) : bool :=
  existsb (fun x => String.eqb x s) l.

(** [Array.prototype.join]. *)
Definition join (sep : string) (l : list string) : string :=
  String.concat sep l.

(** The component state the lifecycle touches, with the number of
    identifiers drawn so far from the browser. *)
Record App : Type := mkApp {
  files : list FileInfo;
  fileError : string;
  drawn : nat
}.

Definition initial : App := mkApp [] "" 0.

(** The two arrays filled by the [forEach] of [validateAndAddFiles]. *)
Record Batch : Type := mkBatch {
  newFiles : list FileInfo;
  invalidFiles : list string;
  draws : nat
}.

(** The effects of [newFiles.forEach ((fileInfo) => uploadFile (fileInfo))]
    that happen inside the handler. *)
Definition auto_upload (l : list FileInfo) : list effect :=
  flat_map uploadFile_started l.

Section Manager.

(** The browser's generators: the [n]-th result of [crypto.randomUUID ()]
    and of [URL.createObjectURL (file)]. *)
Variable randomUUID : nat -> string.
Variable createObjectURL : nat -> string.

(** The body of the [forEach]: two early returns, then a [push]. *)
Definition visit (acc : Batch) (selectedFile : File.t) : Batch :=
  if negb (includes ALLOWED_TYPES (File.type selectedFile)) then
    mkBatch (newFiles acc)
            (invalidFiles acc
               ++ [File.name selectedFile ++ " (unsupported type)"])
            (draws acc)
  else if MAX_FILE_SIZE <? File.size selectedFile then
    mkBatch (newFiles acc)
            (invalidFiles acc
               ++ [File.name selectedFile ++ " (exceeds 15MB limit)"])
            (draws acc)
  else
    mkBatch (newFiles acc
               ++ [mkFileInfo selectedFile
                              (createObjectURL (draws acc))
                              (randomUUID (draws acc))
                              (File.name selectedFile)
                              (File.size selectedFile)
                              (File.type selectedFile)
                              pending (Num 0) None None])
            (invalidFiles acc)
            (S (draws acc)).

Definition partition_batch (n : nat) (selectedFiles : list File.t) : Batch :=
  fold_left visit selectedFiles (mkBatch [] [] n).

(** [validateAndAddFiles]: the state once React has applied the queued
    updaters, and the effects performed inside the handler. *)
Definition validateAndAddFiles (selectedFiles : list File.t) (st : App)
  : App * list effect :=
  let cleared := "" in
  if (0 <? List.length selectedFiles)%nat then
    let b := partition_batch (drawn st) selectedFiles in
    let advisory :=
      if (0 <? List.length (invalidFiles b))%nat
      then "Some files were not added: " ++ join ", " (invalidFiles b)
      else cleared in
    (mkApp (run (auto_upload (newFiles b)) (files st ++ newFiles b))
           advisory (draws b),
     auto_upload (newFiles b))
  else
    (mkApp (files st) cleared (drawn st), []).

End Manager.

(** ** Removal, retry and the card *)

(** [removeFile]: [prev.filter ((f) => f.id !== id)].  The release of the
    preview handle changes no record and is left out. *)
Definition removeFile (i : string) (st : App) : App :=
  mkApp (filter (fun f => negb (String.eqb (id f) i)) (files st))
        (fileError st) (drawn st).

(** [retryUpload]: [files.find ((f) => f.id === id)], then [uploadFile]. *)
Definition retryUpload (i : string) (st : App) : App * list effect :=
  match find (fun f => String.eqb (id f) i) (files st) with
  | Some fileToRetry =>
      (mkApp (run (uploadFile_started fileToRetry) (files st))
             (fileError st) (drawn st),
       uploadFile_started fileToRetry)
  | None => (st, [])
  end.

(** The status section of a card: which of its three parts is rendered. *)
Definition progress_shown (fileInfo : FileInfo) : bool :=
  Status_eqb (status fileInfo) uploading.
Definition complete_shown (fileInfo : FileInfo) : bool :=
  Status_eqb (status fileInfo) success.
Definition retry_button_shown (fileInfo : FileInfo) : bool :=
  Status_eqb (status fileInfo) error.

(** A click on the retry button of the [n]-th card: possible only where
    the button is rendered, and then [retryUpload (fileInfo.id)]. *)
Definition click_retry (n : nat) (st : App) : option (App * list effect) :=
  match nth_error (files st) n with
  | Some fileInfo =>
      if retry_button_shown fileInfo
      then Some (retryUpload (id fileInfo) st)
      else None
  | None => None
  end.

(** ** The backend route [POST /get-upload-url] *)

Module Backend.

Record reply : Type := mkReply {
  code : N;
  (* the properties of the JSON body *)
  bucket : jsfield;
  key : jsfield;
  url : jsfield;
  error : jsfield
}.

Definition decimal (n : N) : string := NilZero.string_of_uint (N.to_uint n).

(** [now] is [Date.now ()]; [presigned] is what [getSignedUrl] resolves
    to, [None] when it rejects. *)
Definition get_upload_url (now : N) (presigned : option string)
           (filename filetype : string) : reply :=
  let key := "uploads/" ++ decimal now ++ "-" ++ filename in
  match presigned with
  | Some presignedurl =>
      mkReply 200 Undefined (Str key) (Str presignedurl) Undefined
  | None => mkReply 500 Undefined Undefined Undefined
                    (Str "Failed to generate upload URL")
  end.

End Backend.

(** The [Response] the component's [fetch] resolves to for a reply;
    [reason] is the status text of the transport. *)
Definition received (reason : string) (r : Backend.reply) : Response :=
  mkResponse ((200 <=? Backend.code r) && (Backend.code r <=? 299))
             reason
             (inr (Backend.bucket r, Backend.key r, Backend.url r)).

(** ** The component with its attempts in flight *)

(** What an attempt still has to write once its synchronous start is done:
    the identifier all its updaters carry, and the updates in order. *)
Definition suspended (net : Network) (fileInfo : FileInfo)
  : string * list update :=
  (id fileInfo, tl (updates (attempt net fileInfo))).

Record System : Type := mkSystem {
  app : App;
  inflight : list (string * list update)
}.

Definition booted : System := mkSystem initial [].

(** [answers k] is the network met by the [k]-th attempt of a batch. *)
Fixpoint launch (answers : nat -> Network) (k : nat) (news : list FileInfo)
  : list (string * list update) :=
  match news with
  | [] => []
  | r :: news' => suspended (answers k) r :: launch answers (S k) news'
  end.

Definition replace_nth {A} (k : nat) (x : A) (l : list A) : list A :=
  (firstn k l ++ x :: skipn (S k) l)%list.

(** One turn of the event loop. *)
Inductive action : Type :=
| Pick (selectedFiles : list File.t) (answers : nat -> Network)
                                          (* picker change or drop *)
| ClickRemove (n : nat)                   (* the remove button of card [n] *)
| ClickRetry (n : nat) (answer : Network) (* the retry button of card [n] *)
| Resume (k : nat).                       (* attempt [k] delivers its next updater *)

Section Turns.

Variable randomUUID : nat -> string.
Variable createObjectURL : nat -> string.

(** What a turn does.  An intake also registers the attempts it starts; a
    click on a card acts on that card's identifier; a resumed attempt
    applies its next updater to the set as it is now. *)
Definition act (sys : System) (a : action) : System :=
  match a with
  | Pick selectedFiles answers =>
      mkSystem
        (fst (validateAndAddFiles randomUUID createObjectURL
                selectedFiles (app sys)))
        (inflight sys
         ++ launch answers 0
              (newFiles (partition_batch randomUUID createObjectURL
                           (drawn (app sys)) selectedFiles)))
  | ClickRemove n =>
      match nth_error (files (app sys)) n with
      | Some fileInfo =>
          mkSystem (removeFile (id fileInfo) (app sys)) (inflight sys)
      | None => sys
      end
  | ClickRetry n answer =>
      match nth_error (files (app sys)) n with
      | Some fileInfo =>
          match click_retry n (app sys),
                find (fun f => String.eqb (id f) (id fileInfo))
                     (files (app sys)) with
          | Some (st', _), Some fileToRetry =>
              mkSystem st' (inflight sys ++ [suspended answer fileToRetry])
          | _, _ => sys
          end
      | None => sys
      end
  | Resume k =>
      match nth_error (inflight sys) k with
      | Some (i, u :: us) =>
          mkSystem (mkApp (setFiles i u (files (app sys)))
                          (fileError (app sys)) (drawn (app sys)))
                   (replace_nth k (i, us) (inflight sys))
      | _ => sys
      end
  end.

Definition reached (acts : list action) : System := fold_left act acts booted.

End Turns.

(** * Vocabulary of the properties *)

(** ** Attempts *)

(** The message the [catch] block stores. *)
Definition caught_message (e : thrown) : string :=
  match e with
  | ErrorInstance message => message
  | OtherValue => "Failed to upload file"
  end.

(** The public location written on success. *)
Definition public_url (bucket key : jsfield) : string :=
  "https://" ++ template bucket ++ ".s3.amazonaws.com/" ++ template key.

(** How an attempt ends. *)
Inductive outcome : Type :=
| Succeeded (location : string)
| Failed (message : string).

Definition outcome_of (net : Network) : outcome :=
  match fetched net with
  | inl e => Failed (caught_message e)
  | inr response =>
      if negb (ok response)
      then Failed ("Failed to get upload URL: " ++ statusText response)
      else match json response with
           | inl e => Failed (caught_message e)
           | inr (bucket, key, _) =>
               match transferred net with
               | Some e => Failed (caught_message e)
               | None => Succeeded (public_url bucket key)
               end
           end
  end.

Definition final_update (o : outcome) : update :=
  match o with
  | Succeeded location => SetSuccess location
  | Failed message => SetError message
  end.

(** The transfer is reached when the authorization came back usable. *)
Definition transfer_target (net : Network) : option jsfield :=
  match fetched net with
  | inl _ => None
  | inr response =>
      if negb (ok response) then None
      else match json response with
           | inl _ => None
           | inr (_, _, target) => Some target
           end
  end.

(** The percentages delivered during the transfer, in order. *)
Definition delivered (net : Network) (fileInfo : FileInfo) : list jsnum :=
  match transfer_target net with
  | Some _ => map (fun ev => percentCompleted ev fileInfo) (events net)
  | None => []
  end.

Definition apply_updates (us : list update) (f : FileInfo) : FileInfo :=
  fold_left (fun r u => spread u r) us f.

(** The sets React shows in turn while a trace is applied. *)
Fixpoint observed (tr : list effect) (files : list FileInfo)
  : list (list FileInfo) :=
  match tr with
  | [] => []
  | Updater i u :: tr' =>
      setFiles i u files :: observed tr' (setFiles i u files)
  | _ :: tr' => observed tr' files
  end.

(** An update that ends an attempt. *)
Definition final (u : update) : Prop :=
  match u with
  | SetSuccess _ | SetError _ => True
  | _ => False
  end.

(** Progress updates closed by one final update, or nothing left. *)
Fixpoint closing (us : list update) : Prop :=
  match us with
  | [] => True
  | u :: us' =>
      match us' with
      | [] => final u
      | _ :: _ => (exists p, u = SetProgress p) /\ closing us'
      end
  end.

(** ** Strings *)

Definition contains (s sub : string) : Prop :=
  exists pre post, s = pre ++ sub ++ post.

Definition ends_with (s suffix : string) : Prop :=
  exists pre, s = pre ++ suffix.

(** ** Intake *)

(** The acceptance policy in the words of the specification. *)
Definition policy (c : File.t) : Prop :=
  In (File.type c)
     ["image/jpeg"; "image/png"; "image/gif"; "video/mp4"; "video/quicktime"]
  /\ File.size c <= 15 * 1024 * 1024.

Definition within_policy (c : File.t) : bool :=
  includes ALLOWED_TYPES (File.type c) && (File.size c <=? MAX_FILE_SIZE).

(** The summary entry of a rejected candidate: the type is tested first. *)
Definition rejection_entry (c : File.t) : string :=
  if includes ALLOWED_TYPES (File.type c)
  then File.name c ++ " (exceeds 15MB limit)"
  else File.name c ++ " (unsupported type)".

Definition rejected (cs : list File.t) : list File.t :=
  filter (fun c => negb (within_policy c)) cs.

(** The advisory a batch leaves behind. *)
Definition advisory_of (cs : list File.t) : string :=
  match rejected cs with
  | [] => ""
  | _ :: _ =>
      "Some files were not added: " ++ join ", " (map rejection_entry (rejected cs))
  end.

(** The record pushed for an accepted candidate after [n] draws. *)
Definition record_of (randomUUID createObjectURL : nat -> string)
           (n : nat) (c : File.t) : FileInfo :=
  mkFileInfo c (createObjectURL n) (randomUUID n)
             (File.name c) (File.size c) (File.type c)
             pending (Num 0) None None.

Fixpoint created (randomUUID createObjectURL : nat -> string)
         (n : nat) (cs : list File.t) : list FileInfo :=
  match cs with
  | [] => []
  | c :: cs' =>
      if within_policy c
      then record_of randomUUID createObjectURL n c
           :: created randomUUID createObjectURL (S n) cs'
      else created randomUUID createObjectURL n cs'
  end.

(** A record as intake creates it. *)
Definition as_created (r : FileInfo) : Prop :=
  status r = pending /\ progress r = Num 0 /\
  url r = None /\ errorMessage r = None /\
  name r = File.name (file r) /\ size r = File.size (file r) /\
  type r = File.type (file r).

(** The authorization requests a trace sends, in order: the [filename]
    and [filetype] of each body. *)
Fixpoint requests (tr : list effect) : list (string * string) :=
  match tr with
  | [] => []
  | Fetch filename filetype :: tr' => (filename, filetype) :: requests tr'
  | _ :: tr' => requests tr'
  end.

(** What the auto-start updaters of a batch do to one record: the records
    carrying the identifier of a started record are marked uploading. *)
Definition started (ids : list string) (f : FileInfo) : FileInfo :=
  if includes ids (id f) then spread SetUploading f else f.

(** ** Progress *)

(** Order on the values [progress] can take; [NaN] compares with nothing. *)
Definition jsnum_le (a b : jsnum) : Prop :=
  match a, b with
  | Num x, Num y => x <= y
  | Num _, Infinity => True
  | Infinity, Infinity => True
  | _, _ => False
  end.

Fixpoint non_decreasing (l : list jsnum) : Prop :=
  match l with
  | a :: (b :: _) as l' => jsnum_le a b /\ non_decreasing l'
  | _ => True
  end.

Fixpoint cumulative (l : list N) : Prop :=
  match l with
  | a :: (b :: _) as l' => a <= b /\ cumulative l'
  | _ => True
  end.

(** A transport that reports cumulative counts against one positive total. *)
Definition steady (sz : N) (evs : list ProgressEvent) : Prop :=
  exists d, 0 < d /\
    Forall (fun ev => total_or (total ev) sz = d) evs /\
    cumulative (map loaded evs).

(** The notifications for which [percentCompleted] is the number the code
    computes: [loaded * 100] and the divisor are held by a double without
    rounding, and the quotient is rounded as the exact one is.  Every byte
    count below 2^45 is in that range. *)
Definition exact_percent (sz : N) (ev : ProgressEvent) : Prop :=
  loaded ev * 100 < 2 ^ 52 /\ total_or (total ev) sz < 2 ^ 53.

(** The [progress] an updater writes, whatever the record held. *)
Definition written (u : update) : jsnum :=
  match u with
  | SetUploading => Num 0
  | SetProgress percent => percent
  | SetSuccess _ => Num 100
  | SetError _ => Num 0
  end.

(** ** Observations *)

(** The fields that go with a status. *)
Definition consistent (r : FileInfo) : Prop :=
  (url r <> None <-> status r = success) /\
  (status r = error -> errorMessage r <> None) /\
  (status r = pending -> errorMessage r = None).

(** What holds of the component at every turn. *)
Record sound (randomUUID : nat -> string) (sys : System) : Prop := mkSound {
  distinct_ids : NoDup (map id (files (app sys)));
  ids_drawn : forall f, In f (files (app sys)) ->
                exists n, (n < drawn (app sys))%nat /\ id f = randomUUID n;
  owners_drawn : forall i us, In (i, us) (inflight sys) ->
                   exists n, (n < drawn (app sys))%nat /\ i = randomUUID n;
  all_closing : forall i us, In (i, us) (inflight sys) -> closing us;
  settled_idle : forall f, In f (files (app sys)) -> status f <> uploading ->
                   forall us, In (id f, us) (inflight sys) -> us = [];
  one_attempt : forall k k' i us us',
                  nth_error (inflight sys) k = Some (i, us) ->
                  nth_error (inflight sys) k' = Some (i, us') ->
                  us <> [] -> us' <> [] -> k = k';
  fields : Forall consistent (files (app sys))
}.

(** ** Scenarios *)

Definition uuid (n : nat) : string := "id-" ++ Backend.decimal (N.of_nat n).
Definition blob (n : nat) : string := "blob:" ++ Backend.decimal (N.of_nat n).

Definition a_png : File.t := File.mk "a.png" 1000 "image/png".
Definition b_txt : File.t := File.mk "b.txt" 500 "text/plain".
Definition c_mp4 : File.t := File.mk "c.mp4" (20 * 1024 * 1024) "video/mp4".
Definition d_gif : File.t := File.mk "d.gif" 2048 "image/gif".

(** The record intake creates for [a.png] in a new component. *)
Definition record_a : FileInfo := record_of uuid blob 0 a_png.

(** The authorization of scenario A, as the backend replies at time 123. *)
Definition authorized_a : Response :=
  received "OK" (Backend.get_upload_url 123 (Some "https://u") "a.png" "image/png").

(** A reply with status 500. *)
Definition refused_a : Response :=
  received "Internal Server Error"
           (Backend.get_upload_url 123 None "a.png" "image/png").

(** Scenario A: authorized, transferred. *)
Definition smooth : Network :=
  mkNetwork (inr authorized_a) [mkProgress 1000 (Some 1000)] None.

(** Scenario D: the authorization request returns HTTP 500. *)
Definition refusing : Network := mkNetwork (inr refused_a) [] None.

(** Scenario E: the transfer fails after reporting 40%. *)
Definition breaking : Network :=
  mkNetwork (inr authorized_a) [mkProgress 400 (Some 1000)]
            (Some (ErrorInstance "Network Error")).

(** A transport whose second report is smaller than its first. *)
Definition regressing : Network :=
  mkNetwork (inr authorized_a)
            [mkProgress 500 (Some 1000); mkProgress 300 (Some 1000)] None.

(** The component after scenario A went through. *)
Definition uploaded_a : App :=
  app (reached uuid blob [Pick [a_png] (fun _ => smooth); Resume 0; Resume 0]).

(** The component after the authorization of [a.png] was refused. *)
Definition refused : App :=
  app (reached uuid blob [Pick [a_png] (fun _ => refusing); Resume 0]).

(** Two cards: [a.png] uploaded, [d.gif] failed at 40%. *)
Definition two_cards : System :=
  reached uuid blob
    [Pick [a_png; d_gif] (fun k => if Nat.eqb k 0 then smooth else breaking);
     Resume 0; Resume 1; Resume 0; Resume 1].

(** The component after a batch in which two candidates were rejected. *)
Definition advised : App :=
  fst (validateAndAddFiles uuid blob [a_png; b_txt; c_mp4] initial).

(** * The rest of the component *)

(** ** What a card displays *)

(** [(n / d).toFixed (1)] in tenths, for [d] a power of two and
    [n < 2^53]: [n] is then held by a double without rounding, the quotient
    is exact, and [toFixed] takes the nearest tenth, the larger one on a
    tie, in fixed notation (it turns to exponent notation from 1e21 on).
    The properties of [formatFileSize] are stated for [bytes < 2^53]. *)
Definition tenths (n d : N) : N := (20 * n + d) / (2 * d).

Definition toFixed1 (n d : N) : string :=
  Backend.decimal (tenths n d / 10) ++ "." ++ Backend.decimal (tenths n d mod 10).

(** [function formatFileSize (bytes)] *)
Definition formatFileSize (bytes : N) : string :=
  if bytes <? 1024 then Backend.decimal bytes ++ " B"
  else if bytes <? 1024 * 1024 then toFixed1 bytes 1024 ++ " KB"
  else toFixed1 bytes (1024 * 1024) ++ " MB".

(** [String.prototype.split] with a one-character separator. *)
Fixpoint split (sep : ascii) (s : string) : list string :=
  match s with
  | EmptyString => [EmptyString]
  | String c s' =>
      if Ascii.eqb c sep then EmptyString :: split sep s'
      else match split sep s' with
           | piece :: pieces => String c piece :: pieces
           | [] => [String c EmptyString]
           end
  end.

(** [String.prototype.toUpperCase] on ASCII text. *)
Definition upper (c : ascii) : ascii :=
  let n := nat_of_ascii c in
  if ((97 <=? n) && (n <=? 122))%nat then ascii_of_nat (n - 32) else c.

Fixpoint toUpperCase (s : string) : string :=
  match s with
  | EmptyString => EmptyString
  | String c s' => String (upper c) (toUpperCase s')
  end.

(** [fileInfo.type.split ("/")[1].toUpperCase ()]: [None] when the second
    piece is [undefined], where the call throws a [TypeError]. *)
Definition type_label (fileInfo : FileInfo) : option string :=
  option_map toUpperCase (nth_error (split "/" (type fileInfo)) 1).

(** [String.prototype.startsWith]. *)
Definition startsWith (s p : string) : bool := String.prefix p s.

(** The thumbnail of a card: an image, a video, or the file icon. *)
Inductive thumbnail : Type := Image | Video | Icon.

Definition thumbnail_of (fileInfo : FileInfo) : thumbnail :=
  if startsWith (type fileInfo) "image/" then Image
  else if startsWith (type fileInfo) "video/" then Video
  else Icon.

(** The [onClick] of a card opens the preview under this condition. *)
Definition opens_preview (fileInfo : FileInfo) : bool :=
  (startsWith (type fileInfo) "image/" || startsWith (type fileInfo) "video/")
  && negb (Status_eqb (status fileInfo) uploading).

(** ** Preview handles *)

(** The handles [URL.revokeObjectURL] is called on by [removeFile]: the
    preview of the first record found with the identifier, when truthy. *)
Definition revoked_by_remove (i : string) (st : App) : list string :=
  match find (fun f => String.eqb (id f) i) (files st) with
  | Some fileToRemove =>
      if String.eqb (previewUrl fileToRemove) "" then []
      else [previewUrl fileToRemove]
  | None => []
  end.

(** The cleanup returned by the effect: it walks the [files] it closed
    over. *)
Definition cleanup (captured : list FileInfo) : list string :=
  map previewUrl
      (filter (fun f => negb (String.eqb (previewUrl f) "")) captured).

(** The effect has no dependencies: it runs after the first render only,
    and its cleanup closes over the [files] of that render. *)
Definition unmount : list string := cleanup (files initial).

Section Ledger.

Variable randomUUID : nat -> string.
Variable createObjectURL : nat -> string.

(** The handles released in one turn. *)
Definition released_by (sys : System) (a : action) : list string :=
  match a with
  | ClickRemove n =>
      match nth_error (files (app sys)) n with
      | Some fileInfo => revoked_by_remove (id fileInfo) (app sys)
      | None => []
      end
  | _ => []
  end.

(** The handles released along a run, in order. *)
Fixpoint released (sys : System) (acts : list action) : list string :=
  match acts with
  | [] => []
  | a :: acts' =>
      (released_by sys a
       ++ released (act randomUUID createObjectURL sys a) acts')%list
  end.

End Ledger.

(** The previews held by the records of the set. *)
Definition held (sys : System) : list string :=
  map previewUrl (files (app sys)).

(** Every record of the set has a truthy preview handle. *)
Definition truthy_previews (sys : System) : Prop :=
  Forall (fun f => previewUrl f <> "") (files (app sys)).

(** ** The backend route [POST /confirm-upload] *)

Module Confirm.

Record reply : Type := mkReply {
  success : bool;
  message : string;
  imageUrl : string
}.

(** [bucket] is [process.env.AWS_S3_BUCKET], [key] the body's [key]. *)
Definition confirm_upload (bucket key : jsfield) : reply :=
  mkReply true "Upload confirmed!"
          ("https://" ++ template bucket ++ ".s3.amazonaws.com/" ++ template key).

End Confirm.

(** ** Turns of one attempt *)

(** The record of a card, if any, is settled. *)
Definition settled (r : FileInfo) : Prop :=
  status r = success \/ status r = error.

(** An attempt in flight that still has something to deliver. *)
Definition busy (sys : System) (i : string) : Prop :=
  exists k us, nth_error (inflight sys) k = Some (i, us) /\ us <> [].

(** Every uploading record has an attempt in flight. *)
Definition attended (sys : System) : Prop :=
  forall f, In f (files (app sys)) -> status f = uploading -> busy sys (id f).

(** The fields an updater never writes. *)
Definition origin (r : FileInfo) : File.t * string * string * string * N * string :=
  (file r, previewUrl r, id r, name r, size r, type r).

(** A record still describes the file it was made from, and that file is
    within the policy. *)
Definition faithful (r : FileInfo) : Prop :=
  name r = File.name (file r) /\ size r = File.size (file r) /\
  type r = File.type (file r) /\ policy (file r).

(** No character of the string is a hyphen. *)
Fixpoint dashless (s : string) : Prop :=
  match s with
  | EmptyString => True
  | String c s' => c <> "-"%char /\ dashless s'
  end.

(** ** The form version of the component: [handleSubmit] *)

Module Submit.

(** What [handleSubmit] pushes to [uploadResults] for a file. *)
Inductive result : Type :=
| Presigned (file : string) (presignedUrl : jsfield * jsfield * jsfield)
| Unavailable (file : string) (message : string).

Inductive effect : Type :=
| Request (filename filetype : string)   (* POST /get-upload-url *)
| Push (r : result)                      (* uploadResults.push *)
| SetFileError (message : string).

Definition T (A : Type) : Type := (list effect * (thrown + A))%type.

Definition ret {A} (a : A) : T A := ([], inr a).
Definition throw {A} (e : thrown) : T A := ([], inl e).
Definition perform (x : effect) : T unit := ([x], inr tt).
Definition lift {A} (r : thrown + A) : T A := ([], r).

Definition bind {A B} (m : T A) (k : A -> T B) : T B :=
  match m with
  | (tr, inl e) => (tr, inl e)
  | (tr, inr a) => let (tr', r) := k a in ((tr ++ tr')%list, r)
  end.

Definition try_catch {A} (body : T A) (handler : thrown -> T A) : T A :=
  match body with
  | (tr, inl e) => let (tr', r) := handler e in ((tr ++ tr')%list, r)
  | (tr, inr a) => (tr, inr a)
  end.

Fixpoint for_each {A} (l : list A) (body : A -> T unit) : T unit :=
  match l with
  | [] => ret tt
  | a :: l' => bind (body a) (fun _ => for_each l' body)
  end.

(** The part of a file's task after its [fetch] was issued: everything is
    inside the task's own [try]. *)
Definition finish (filename : string) (answer : thrown + Response) : T unit :=
  try_catch
    (bind (lift answer) (fun response =>
     bind (if negb (ok response)
           then throw (ErrorInstance
                         ("Upload failed for " ++ filename ++ ": "
                          ++ statusText response))
           else ret tt) (fun _ =>
     bind (lift (json response)) (fun presignedUrl =>
     perform (Push (Presigned filename presignedUrl))))))
    (fun _ => perform (Push (Unavailable filename "Failed to get presigned url"))).

(** [handleSubmit] on the files' names and types.  [answers k] is what the
    [k]-th request meets, [order] the order in which the tasks complete. *)
Definition handleSubmit (selected : list (string * string))
           (answers : nat -> thrown + Response) (order : list nat) : T unit :=
  if (List.length selected =? 0)%nat
  then perform (SetFileError "Please select at least one file")
  else
    try_catch
      (bind (for_each selected (fun f => perform (Request (fst f) (snd f))))
            (fun _ =>
       for_each order (fun k =>
         match nth_error selected k with
         | Some f => finish (fst f) (answers k)
         | None => ret tt
         end)))
      (fun _ => perform (SetFileError "Upload process failed. Please try again.")).

(** The results pushed, in order. *)
Fixpoint pushed (tr : list effect) : list result :=
  match tr with
  | [] => []
  | Push r :: tr' => r :: pushed tr'
  | _ :: tr' => pushed tr'
  end.

(** The result a file gets from its answer. *)
Definition result_of (filename : string) (answer : thrown + Response) : result :=
  match answer with
  | inl _ => Unavailable filename "Failed to get presigned url"
  | inr response =>
      if ok response
      then match json response with
           | inr presignedUrl => Presigned filename presignedUrl
           | inl _ => Unavailable filename "Failed to get presigned url"
           end
      else Unavailable filename "Failed to get presigned url"
  end.

End Submit.

(** ** Further scenarios *)

(** The record intake creates for [d.gif] as the second file of a session. *)
Definition record_d : FileInfo := record_of uuid blob 1 d_gif.

(** A network on which [fetch] rejects. *)
Definition offline : Network :=
  mkNetwork (inl (ErrorInstance "Failed to fetch")) [] None.

(** The turns that lead to [two_cards]. *)
Definition two_cards_run : list action :=
  [Pick [a_png; d_gif] (fun k => if Nat.eqb k 0 then smooth else breaking);
   Resume 0; Resume 1; Resume 0; Resume 1].

(** The turns that lead to [refused]. *)
Definition refused_run : list action :=
  [Pick [a_png] (fun _ => refusing); Resume 0].

(** * Properties *)

(** ** The shape of an attempt *)

Lemma for_each_perform {A} (g : A -> effect) (l : list A) :
  for_each l (fun a => perform (g a)) = (map g l, inr tt).
Proof.
  induction l as [|a l IH]; [reflexivity|].
  cbn [for_each]. unfold bind at 1. cbn [perform]. rewrite IH. reflexivity.
Qed.

(** An attempt is: mark uploading, ask for the authorization, then (only
    with a usable authorization) the transfer and its progress updaters,
    then exactly one final updater. *)
Lemma attempt_shape (net : Network) (fileInfo : FileInfo) :
  attempt net fileInfo =
    (uploadFile_started fileInfo
     ++ match transfer_target net with
        | Some target => [Put target (type fileInfo)]
        | None => []
        end
     ++ map (fun p => Updater (id fileInfo) (SetProgress p))
            (delivered net fileInfo)
     ++ [Updater (id fileInfo) (final_update (outcome_of net))])%list.
Proof.
  unfold attempt, uploadFile, delivered, transfer_target, outcome_of.
  destruct (fetched net) as [e|response]; [reflexivity|].
  cbn [lift bind perform app].
  destruct (ok response); cbn [negb]; [|reflexivity].
  destruct (json response) as [e|[[bucket key] target]]; [reflexivity|].
  cbn [ret throw lift bind perform app].
  rewrite (for_each_perform
             (fun ev => Updater (id fileInfo)
                          (SetProgress (percentCompleted ev fileInfo)))).
  rewrite map_map.
  destruct (transferred net) as [e|]; cbn;
    rewrite ?app_nil_r; reflexivity.
Qed.

(** ** Basic facts on updaters *)

Lemma spread_id (u : update) (f : FileInfo) : id (spread u f) = id f.
Proof. destruct u; reflexivity. Qed.

Lemma setFiles_length i u prev :
  List.length (setFiles i u prev) = List.length prev.
Proof. apply length_map. Qed.

Lemma setFiles_nth i u prev n :
  nth_error (setFiles i u prev) n =
  option_map (fun f => if String.eqb (id f) i then spread u f else f)
             (nth_error prev n).
Proof. apply nth_error_map. Qed.

Lemma setFiles_absent i u prev :
  (forall f, In f prev -> id f <> i) -> setFiles i u prev = prev.
Proof.
  intros H. unfold setFiles.
  rewrite <- (map_id prev) at 2. apply map_ext_in.
  intros f Hf. destruct (String.eqb_spec (id f) i) as [E|E]; [|reflexivity].
  exfalso. exact (H f Hf E).
Qed.

Lemma removeFile_absent i st :
  forall f, In f (files (removeFile i st)) -> id f <> i.
Proof.
  intros f Hf. apply filter_In in Hf. destruct Hf as [_ Hf].
  destruct (String.eqb_spec (id f) i); [discriminate|assumption].
Qed.

Lemma setFiles_other i u prev n f :
  nth_error prev n = Some f -> id f <> i ->
  nth_error (setFiles i u prev) n = Some f.
Proof.
  intros Hn Hi. rewrite setFiles_nth, Hn. cbn.
  destruct (String.eqb_spec (id f) i); [contradiction|reflexivity].
Qed.

Lemma attempt_updaters net fileInfo j u :
  In (Updater j u) (attempt net fileInfo) -> j = id fileInfo.
Proof.
  rewrite attempt_shape. unfold uploadFile_started.
  rewrite !in_app_iff. intros [H|[H|[H|H]]].
  - destruct H as [H|[H|[]]]; congruence.
  - destruct (transfer_target net); cbn in H; [destruct H as [H|[]]|destruct H].
    discriminate.
  - apply in_map_iff in H. destruct H as [p [H _]]. congruence.
  - destruct H as [H|[]]. congruence.
Qed.

Lemma run_frame i tr :
  (forall j u, In (Updater j u) tr -> j = i) ->
  forall prev n f,
    nth_error prev n = Some f -> id f <> i ->
    nth_error (run tr prev) n = Some f.
Proof.
  induction tr as [|x tr IH]; intros Htr prev n f Hn Hi; [exact Hn|].
  destruct x as [j u| |]; cbn [run];
    try (apply IH; [intros; apply (Htr j u); right|..]; assumption).
  assert (j = i) by (apply (Htr j u); left; reflexivity). subst j.
  apply IH; [intros j' u' H'; apply (Htr j' u'); right; exact H'| |exact Hi].
  apply setFiles_other; assumption.
Qed.

Lemma run_absent i tr prev :
  (forall j u, In (Updater j u) tr -> j = i) ->
  (forall f, In f prev -> id f <> i) ->
  run tr prev = prev.
Proof.
  revert prev. induction tr as [|x tr IH]; intros prev Htr Hp; [reflexivity|].
  destruct x as [j u| |]; cbn [run];
    try (apply IH; [intros j' u' H'; apply (Htr j' u'); right; exact H'|exact Hp]).
  assert (j = i) by (apply (Htr j u); left; reflexivity). subst j.
  rewrite (setFiles_absent i u prev Hp).
  apply IH; [intros j' u' H'; apply (Htr j' u'); right; exact H'|exact Hp].
Qed.

(** ** Frame of the updaters *)

(** C9.  Every updater of an attempt is addressed to the identifier of the
    attempt's own record; such an updater, and the attempt as a whole, keeps
    every record with another identifier as it is and where it is; and once
    the record has been removed, each updater and the whole attempt leave
    the set exactly as it is. *)
Theorem updaters_frame (net : Network) (fileInfo : FileInfo) :
  (forall j u, In (Updater j u) (attempt net fileInfo) -> j = id fileInfo) /\
  (forall u prev,
     List.length (setFiles (id fileInfo) u prev) = List.length prev /\
     forall n f, nth_error prev n = Some f -> id f <> id fileInfo ->
                 nth_error (setFiles (id fileInfo) u prev) n = Some f) /\
  (forall prev n f,
     nth_error prev n = Some f -> id f <> id fileInfo ->
     nth_error (run (attempt net fileInfo) prev) n = Some f) /\
  (forall u st,
     setFiles (id fileInfo) u (files (removeFile (id fileInfo) st))
     = files (removeFile (id fileInfo) st)) /\
  (forall st,
     run (attempt net fileInfo) (files (removeFile (id fileInfo) st))
     = files (removeFile (id fileInfo) st)).
Proof.
  repeat split.
  - apply attempt_updaters.
  - apply setFiles_length.
  - intros n f. apply setFiles_other.
  - intros prev n f. apply run_frame. apply attempt_updaters.
  - intros u st. apply setFiles_absent, removeFile_absent.
  - intros st. apply (run_absent (id fileInfo)).
    + apply attempt_updaters.
    + apply removeFile_absent.
Qed.

(** ** Strings *)

Lemma append_assoc (a b c : string) : (a ++ b) ++ c = a ++ b ++ c.
Proof. induction a as [|x a IH]; cbn; [reflexivity|now rewrite IH]. Qed.

Lemma append_empty_r (a : string) : a ++ "" = a.
Proof. induction a as [|x a IH]; cbn; [reflexivity|now rewrite IH]. Qed.

Lemma join_contains sep l x : In x l -> contains (join sep l) x.
Proof.
  unfold join. induction l as [|y l IH]; intros H; [destruct H|].
  destruct H as [->|H].
  - destruct l as [|z l]; cbn [concat].
    + exists "", "". cbn. now rewrite append_empty_r.
    + exists "", (sep ++ concat sep (z :: l)). reflexivity.
  - destruct l as [|z l]; [destruct H|].
    destruct (IH H) as [pre [post E]].
    cbn [concat] in *. exists (y ++ sep ++ pre), post.
    rewrite E, !append_assoc. reflexivity.
Qed.

Lemma includes_In l s : includes l s = true <-> In s l.
Proof.
  unfold includes. rewrite existsb_exists. split.
  - intros [x [Hx E]]. apply String.eqb_eq in E. now subst.
  - intros H. exists s. split; [assumption|apply String.eqb_refl].
Qed.

(** ** Intake *)

Lemma within_policy_spec c : within_policy c = true <-> policy c.
Proof.
  unfold within_policy, policy. rewrite andb_true_iff, includes_In, N.leb_le.
  reflexivity.
Qed.

Section Intake.

Variable randomUUID : nat -> string.
Variable createObjectURL : nat -> string.

Local Abbreviation record_of' := (record_of randomUUID createObjectURL).
Local Abbreviation created' := (created randomUUID createObjectURL).

Lemma visit_cases acc c :
  visit randomUUID createObjectURL acc c =
  if within_policy c
  then mkBatch (newFiles acc ++ [record_of' (draws acc) c])
               (invalidFiles acc) (S (draws acc))
  else mkBatch (newFiles acc)
               (invalidFiles acc ++ [rejection_entry c]) (draws acc).
Proof.
  unfold visit, within_policy, rejection_entry.
  destruct (includes ALLOWED_TYPES (File.type c)); cbn [negb andb];
    [|reflexivity].
  rewrite N.ltb_antisym.
  destruct (File.size c <=? MAX_FILE_SIZE); reflexivity.
Qed.

Lemma fold_visit cs : forall acc,
  fold_left (visit randomUUID createObjectURL) cs acc =
  mkBatch (newFiles acc ++ created' (draws acc) cs)
          (invalidFiles acc ++ map rejection_entry (rejected cs))
          (draws acc + List.length (filter within_policy cs)).
Proof.
  induction cs as [|c cs IH]; intros acc; cbn [fold_left].
  - cbn. rewrite !app_nil_r, Nat.add_0_r. destruct acc; reflexivity.
  - rewrite IH, visit_cases. unfold rejected. cbn [created filter].
    destruct (within_policy c); cbn [negb newFiles invalidFiles draws map List.length].
    + rewrite <- app_assoc, Nat.add_succ_r. reflexivity.
    + rewrite <- app_assoc. reflexivity.
Qed.

Lemma partition_batch_eq n cs :
  partition_batch randomUUID createObjectURL n cs =
  mkBatch (created' n cs) (map rejection_entry (rejected cs))
          (n + List.length (filter within_policy cs)).
Proof. unfold partition_batch. rewrite fold_visit. reflexivity. Qed.

Lemma created_files n cs : map file (created' n cs) = filter within_policy cs.
Proof.
  revert n. induction cs as [|c cs IH]; intros n; [reflexivity|].
  cbn [created filter]. destruct (within_policy c); cbn [map]; now rewrite IH.
Qed.

Lemma created_fresh n cs : Forall as_created (created' n cs).
Proof.
  revert n. induction cs as [|c cs IH]; intros n; [constructor|].
  cbn [created]. destruct (within_policy c); [constructor|]; auto.
  repeat split.
Qed.

End Intake.

Section IntakeProperties.

Variable randomUUID : nat -> string.
Variable createObjectURL : nat -> string.

Local Abbreviation intake := (validateAndAddFiles randomUUID createObjectURL).
Local Abbreviation batch := (partition_batch randomUUID createObjectURL).

Lemma intake_fileError cs st :
  fileError (fst (intake cs st)) = advisory_of cs.
Proof.
  unfold validateAndAddFiles, advisory_of.
  destruct cs as [|c cs]; [reflexivity|].
  cbn [List.length Nat.ltb Nat.leb fst fileError].
  rewrite partition_batch_eq. cbn [invalidFiles].
  destruct (rejected (c :: cs)); reflexivity.
Qed.

Lemma intake_files cs st :
  files (fst (intake cs st)) =
  run (auto_upload (newFiles (batch (drawn st) cs)))
      (files st ++ newFiles (batch (drawn st) cs)).
Proof.
  unfold validateAndAddFiles.
  destruct cs as [|c cs]; [cbn; now rewrite app_nil_r|reflexivity].
Qed.

Lemma intake_effects cs st :
  snd (intake cs st) = auto_upload (newFiles (batch (drawn st) cs)).
Proof.
  unfold validateAndAddFiles. destruct cs as [|c cs]; reflexivity.
Qed.

Lemma advisory_contains cs c :
  In c cs -> within_policy c = false ->
  contains (advisory_of cs) (rejection_entry c).
Proof.
  intros Hc Hp.
  assert (Hr : In c (rejected cs))
    by (apply filter_In; split; [assumption|now rewrite Hp]).
  unfold advisory_of. destruct (rejected cs) as [|x l] eqn:E; [destruct Hr|].
  destruct (join_contains ", " (map rejection_entry (x :: l))
              (rejection_entry c) (in_map _ _ _ Hr)) as [pre [post Hj]].
  exists ("Some files were not added: " ++ pre), post.
  rewrite Hj, append_assoc. reflexivity.
Qed.

(** C5.  The records a batch creates are, in order, the candidates whose
    type is one of the five allowed and whose size is at most
    15 * 1024 * 1024, each created [pending] with progress 0 and neither
    location nor message; a candidate outside the policy gives no record,
    and its name with the reason (the type reason when the type is not
    allowed, the size reason otherwise) is an entry of the rejection list
    and a part of the advisory shown. *)
Theorem intake_policy (cs : list File.t) (st : App) :
  let b := batch (drawn st) cs in
  (forall c, In c (map file (newFiles b)) <-> In c cs /\ policy c) /\
  map file (newFiles b) = filter within_policy cs /\
  Forall as_created (newFiles b) /\
  (forall c, In c cs -> ~ policy c ->
     ~ In c (map file (newFiles b)) /\
     rejection_entry c
     = File.name c ++ (if includes ALLOWED_TYPES (File.type c)
                       then " (exceeds 15MB limit)"
                       else " (unsupported type)") /\
     In (rejection_entry c) (invalidFiles b) /\
     contains (fileError (fst (intake cs st))) (rejection_entry c)).
Proof.
  cbn zeta. rewrite partition_batch_eq. cbn [newFiles invalidFiles].
  rewrite created_files.
  assert (Hin : forall c, In c (filter within_policy cs) <-> In c cs /\ policy c).
  { intros c. rewrite filter_In, within_policy_spec. reflexivity. }
  split; [exact Hin|].
  split; [reflexivity|].
  split; [apply created_fresh|].
  intros c Hc Hp. repeat split.
  - intros Hc'. apply Hin in Hc'. destruct Hc'; contradiction.
  - unfold rejection_entry.
    destruct (includes ALLOWED_TYPES (File.type c)); reflexivity.
  - apply in_map, filter_In. split; [assumption|].
    destruct (within_policy c) eqn:E; [|reflexivity].
    apply within_policy_spec in E. contradiction.
  - rewrite intake_fileError. apply advisory_contains; [assumption|].
    destruct (within_policy c) eqn:E; [|reflexivity].
    apply within_policy_spec in E. contradiction.
Qed.

(** C10.  The advisory after an intake is a function of that batch alone:
    it is empty when the batch has no rejected candidate (also for an empty
    batch) and lists the rejections of this batch otherwise; whatever
    message the state held before is gone. *)
Theorem intake_resets_advisory (cs : list File.t) (st : App) :
  fileError (fst (intake cs st)) =
    match rejected cs with
    | [] => ""
    | _ :: _ => "Some files were not added: "
                ++ join ", " (map rejection_entry (rejected cs))
    end
  /\ invalidFiles (batch (drawn st) cs) = map rejection_entry (rejected cs)
  /\ (forallb within_policy cs = true -> fileError (fst (intake cs st)) = "").
Proof.
  split; [apply intake_fileError|split].
  - rewrite partition_batch_eq. reflexivity.
  - intros H. rewrite intake_fileError. unfold advisory_of, rejected.
    rewrite forallb_forall in H.
    replace (filter (fun c => negb (within_policy c)) cs) with (@nil File.t);
      [reflexivity|].
    symmetry. induction cs as [|c l IH]; [reflexivity|].
    cbn [filter]. rewrite (H c (or_introl eq_refl)). cbn [negb].
    apply IH. intros x Hx. apply H. right. exact Hx.
Qed.

End IntakeProperties.

(** ** Auto-start *)

Lemma run_auto_upload news : forall l,
  run (auto_upload news) l = map (started (map id news)) l.
Proof.
  induction news as [|r news IH]; intros l.
  - cbn. symmetry. apply map_id.
  - change (auto_upload (r :: news))
      with (Updater (id r) SetUploading
            :: Fetch (name r) (type r) :: auto_upload news).
    cbn [run]. rewrite IH. unfold setFiles. rewrite map_map.
    apply map_ext. intros f. unfold started. cbn [map includes existsb].
    fold (includes (map id news) (id f)).
    rewrite (String.eqb_sym (id r) (id f)).
    destruct (String.eqb (id f) (id r)); cbn [orb]; [|reflexivity].
    rewrite spread_id.
    destruct (includes (map id news) (id f)); reflexivity.
Qed.

Lemma started_own news :
  map (started (map id news)) news = map (spread SetUploading) news.
Proof.
  apply map_ext_in. intros r Hr. unfold started.
  replace (includes (map id news) (id r)) with true; [reflexivity|].
  symmetry. apply includes_In, in_map, Hr.
Qed.

Lemma started_fresh news l :
  (forall f r, In f l -> In r news -> id f <> id r) ->
  map (started (map id news)) l = l.
Proof.
  intros H. rewrite <- (map_id l) at 2. apply map_ext_in.
  intros f Hf. unfold started.
  destruct (includes (map id news) (id f)) eqn:E; [|reflexivity].
  apply includes_In, in_map_iff in E. destruct E as [r [E Hr]].
  exfalso. apply (H f r Hf Hr). now symmetry.
Qed.

Section AutoStart.

Variable randomUUID : nat -> string.
Variable createObjectURL : nat -> string.

Local Abbreviation intake := (validateAndAddFiles randomUUID createObjectURL).
Local Abbreviation batch := (partition_batch randomUUID createObjectURL).

Lemma requests_app a b : requests (a ++ b) = (requests a ++ requests b)%list.
Proof.
  induction a as [|x a IH]; [reflexivity|].
  destruct x; cbn; now rewrite IH.
Qed.

Lemma requests_updaters i (g : jsnum -> update) l :
  requests (map (fun p => Updater i (g p)) l) = [].
Proof. induction l as [|p l IH]; [reflexivity|exact IH]. Qed.

(** An attempt begins with the uploading mark and the authorization
    request, and sends no other authorization request. *)
Lemma attempt_begins net r :
  exists rest,
    attempt net r =
      ([Updater (id r) SetUploading; Fetch (name r) (type r)] ++ rest)%list /\
    requests rest = [].
Proof.
  eexists. split; [apply attempt_shape|].
  rewrite !requests_app, requests_updaters.
  destruct (transfer_target net); reflexivity.
Qed.

Lemma requests_auto_upload news :
  requests (auto_upload news) = map (fun r => (name r, type r)) news.
Proof.
  induction news as [|r news IH]; [reflexivity|].
  change (auto_upload (r :: news))
    with (Updater (id r) SetUploading
            :: Fetch (name r) (type r) :: auto_upload news).
  cbn [requests map]. now rewrite IH.
Qed.

(** C8.  An intake extends the set to the previous records followed by the
    records accepted from this batch, and inside the same handler starts
    [uploadFile] for each accepted record in turn: the handler performs,
    for each accepted record in order, the uploading mark of that record
    and then the authorization request with its name and type, which are
    the first two effects of that record's attempt, whatever the network
    answers; the attempt sends no other authorization request.  So the
    requests sent are those of the candidates within the policy, one each,
    in order.  Afterwards the set is the previous records, in place,
    followed by the new ones, each [uploading] with progress 0; the
    accepted ones are exactly the candidates within the policy, whatever
    else the batch contains.  The start of an attempt touches a previous
    record only if it carries the identifier of a new record, which fresh
    identifiers exclude. *)
Theorem intake_appends_and_starts (cs : list File.t) (st : App) :
  let news := newFiles (batch (drawn st) cs) in
  let st' := fst (intake cs st) in
  let starts :=
    flat_map (fun r => [Updater (id r) SetUploading;
                        Fetch (name r) (type r)]) news in
  snd (intake cs st) = starts /\
  (forall net r, In r news ->
     exists rest,
       attempt net r =
         ([Updater (id r) SetUploading; Fetch (name r) (type r)]
          ++ rest)%list /\
       requests rest = []) /\
  requests (snd (intake cs st))
  = map (fun c => (File.name c, File.type c)) (filter within_policy cs) /\
  files st' = run starts (files st ++ news) /\
  files st' = (map (started (map id news)) (files st)
               ++ map (spread SetUploading) news)%list /\
  ((forall f r, In f (files st) -> In r news -> id f <> id r) ->
   files st' = (files st ++ map (spread SetUploading) news)%list) /\
  map file news = filter within_policy cs /\
  Forall (fun r => status r = uploading /\ progress r = Num 0)
         (skipn (List.length (files st)) (files st')).
Proof.
  cbn zeta.
  assert (E : files (fst (intake cs st)) =
              (map (started (map id (newFiles (batch (drawn st) cs)))) (files st)
               ++ map (spread SetUploading) (newFiles (batch (drawn st) cs)))%list).
  { rewrite intake_files, run_auto_upload, map_app, started_own. reflexivity. }
  split; [apply intake_effects|].
  split; [intros net r _; apply attempt_begins|].
  split.
  { rewrite intake_effects, requests_auto_upload, partition_batch_eq.
    cbn [newFiles].
    rewrite <- (created_files randomUUID createObjectURL (drawn st) cs), map_map.
    apply map_ext_in. intros r Hr.
    pose proof (created_fresh randomUUID createObjectURL (drawn st) cs) as F.
    rewrite Forall_forall in F.
    destruct (F r Hr) as [_ [_ [_ [_ [Hn [_ Ht]]]]]].
    now rewrite Hn, Ht. }
  split; [apply intake_files|].
  split; [exact E|].
  split; [intros H; rewrite E, started_fresh by exact H; reflexivity|].
  split; [rewrite partition_batch_eq; apply created_files|].
  rewrite E.
  rewrite <- (length_map (started (map id (newFiles (batch (drawn st) cs))))
                         (files st)).
  rewrite skipn_app, skipn_all, Nat.sub_diag. cbn [app skipn].
  apply Forall_forall. intros r Hr. apply in_map_iff in Hr.
  destruct Hr as [x [<- _]]. split; reflexivity.
Qed.

End AutoStart.

(** ** The record of an attempt *)

Lemma updates_app a b : updates (a ++ b) = (updates a ++ updates b)%list.
Proof.
  induction a as [|x a IH]; [reflexivity|].
  destruct x; cbn; now rewrite IH.
Qed.

Lemma updates_map_Updater i (g : jsnum -> update) l :
  updates (map (fun p => Updater i (g p)) l) = map g l.
Proof. induction l as [|p l IH]; cbn; [reflexivity|now rewrite IH]. Qed.

Lemma run_own i tr :
  (forall j u, In (Updater j u) tr -> j = i) ->
  forall prev n g,
    nth_error prev n = Some g -> id g = i ->
    nth_error (run tr prev) n = Some (apply_updates (updates tr) g).
Proof.
  induction tr as [|x tr IH]; intros Htr prev n g Hn Hi; [exact Hn|].
  assert (Htl : forall j u, In (Updater j u) tr -> j = i)
    by (intros j u H; apply (Htr j u); right; exact H).
  destruct x as [j u| |]; cbn [run updates]; try (apply IH; assumption).
  assert (j = i) by (apply (Htr j u); left; reflexivity). subst j.
  cbn. apply IH; [assumption| |now rewrite spread_id].
  rewrite setFiles_nth, Hn. cbn. subst i. now rewrite String.eqb_refl.
Qed.

Lemma attempt_updates net fileInfo :
  updates (attempt net fileInfo) =
  (SetUploading :: map SetProgress (delivered net fileInfo)
   ++ [final_update (outcome_of net)])%list.
Proof.
  rewrite attempt_shape, !updates_app.
  rewrite (updates_map_Updater (id fileInfo) SetProgress).
  destruct (transfer_target net); reflexivity.
Qed.

(** The record of an attempt once the attempt is over: whatever came
    before, the final updater decides status and progress. *)
Lemma attempt_result net fileInfo prev n g :
  nth_error prev n = Some g -> id g = id fileInfo ->
  exists r,
    nth_error (run (attempt net fileInfo) prev) n
    = Some (spread (final_update (outcome_of net)) r)
    /\ url r = url g /\ errorMessage r = errorMessage g.
Proof.
  intros Hn Hi.
  rewrite (run_own (id fileInfo) _ (attempt_updaters net fileInfo) prev n g Hn Hi).
  rewrite attempt_updates. unfold apply_updates.
  change (SetUploading :: map SetProgress (delivered net fileInfo)
          ++ [final_update (outcome_of net)])%list
    with ((SetUploading :: map SetProgress (delivered net fileInfo))
          ++ [final_update (outcome_of net)])%list.
  rewrite fold_left_app. cbn [fold_left].
  eexists. split; [reflexivity|].
  generalize (delivered net fileInfo) as ps.
  assert (G : forall ps r, url (fold_left (fun r u => spread u r)
                                  (map SetProgress ps) r) = url r
                           /\ errorMessage (fold_left (fun r u => spread u r)
                                  (map SetProgress ps) r) = errorMessage r).
  { induction ps as [|p ps IH]; intros r; [split; reflexivity|].
    cbn [map fold_left]. destruct (IH (spread (SetProgress p) r)) as [A B].
    split; [rewrite A|rewrite B]; reflexivity. }
  intros ps. apply (G ps (spread SetUploading g)).
Qed.

(** ** Failure of an attempt *)

(** C6.  When an attempt fails, its record ends in [error] with progress 0
    and the failure's message.  A response that is not [ok] gives the
    message "Failed to get upload URL: " followed by the response's status
    text, and the attempt then consists of the uploading mark, the
    authorization request and the error updater: no transfer.  A transfer
    that rejects gives the message of the rejection when it is an [Error],
    and "Failed to upload file" otherwise. *)
Theorem failed_attempt_ends_in_error
        (net : Network) (fileInfo : FileInfo) (message : string) :
  outcome_of net = Failed message ->
  (forall prev n g,
     nth_error prev n = Some g -> id g = id fileInfo ->
     exists r,
       nth_error (run (attempt net fileInfo) prev) n = Some r /\
       status r = error /\ progress r = Num 0 /\
       errorMessage r = Some message) /\
  (forall response,
     fetched net = inr response -> ok response = false ->
     message = "Failed to get upload URL: " ++ statusText response /\
     attempt net fileInfo =
       [Updater (id fileInfo) SetUploading;
        Fetch (name fileInfo) (type fileInfo);
        Updater (id fileInfo) (SetError message)] /\
     forall target contentType,
       ~ In (Put target contentType) (attempt net fileInfo)) /\
  (forall target e,
     transfer_target net = Some target -> transferred net = Some e ->
     message = match e with
               | ErrorInstance m => m
               | OtherValue => "Failed to upload file"
               end).
Proof.
  intros Hout. split; [|split].
  - intros prev n g Hn Hi.
    destruct (attempt_result net fileInfo prev n g Hn Hi) as [r [E _]].
    rewrite Hout in E. cbn [final_update] in E.
    eexists. split; [exact E|]. repeat split.
  - intros response Hf Hok.
    assert (Hm : message = "Failed to get upload URL: " ++ statusText response).
    { unfold outcome_of in Hout. rewrite Hf, Hok in Hout. cbn [negb] in Hout.
      congruence. }
    assert (Ha : attempt net fileInfo =
                 [Updater (id fileInfo) SetUploading;
                  Fetch (name fileInfo) (type fileInfo);
                  Updater (id fileInfo) (SetError message)]).
    { rewrite attempt_shape. unfold delivered, transfer_target.
      rewrite Hout, Hf, Hok. reflexivity. }
    split; [exact Hm|]. split; [exact Ha|].
    intros target contentType H. rewrite Ha in H.
    destruct H as [H|[H|[H|[]]]]; discriminate.
  - intros target e Ht He. unfold transfer_target in Ht.
    unfold outcome_of in Hout.
    destruct (fetched net) as [|response]; [discriminate|].
    destruct (negb (ok response)); [discriminate|].
    destruct (json response) as [|[[bucket key] t]]; [discriminate|].
    rewrite He in Hout. destruct e; cbn [caught_message] in Hout; congruence.
Qed.

(** ** Success of an attempt *)

Lemma succeeded_attempt net fileInfo location prev n g :
  outcome_of net = Succeeded location ->
  nth_error prev n = Some g -> id g = id fileInfo ->
  exists r,
    nth_error (run (attempt net fileInfo) prev) n = Some r /\
    status r = success /\ progress r = Num 100 /\ url r = Some location.
Proof.
  intros Hout Hn Hi.
  destruct (attempt_result net fileInfo prev n g Hn Hi) as [r [E _]].
  rewrite Hout in E. eexists. split; [exact E|]. repeat split.
Qed.

(** The location is the template of the body's [bucket] and [key]. *)
Lemma succeeded_location net location :
  outcome_of net = Succeeded location ->
  exists response bucket key target,
    fetched net = inr response /\ ok response = true /\
    json response = inr (bucket, key, target) /\
    location = "https://" ++ template bucket ++ ".s3.amazonaws.com/"
               ++ template key /\
    ends_with location (template key).
Proof.
  unfold outcome_of. intros H.
  destruct (fetched net) as [|response]; [discriminate|].
  destruct (ok response) eqn:Hok; [|discriminate]. cbn [negb] in H.
  destruct (json response) as [|[[bucket key] target]] eqn:Hj; [discriminate|].
  destruct (transferred net); [discriminate|].
  injection H as <-. exists response, bucket, key, target.
  repeat split; try assumption.
  exists ("https://" ++ template bucket ++ ".s3.amazonaws.com/").
  unfold public_url. now rewrite !append_assoc.
Qed.

(** The body the route sends has [url] and [key], and no [bucket]. *)
Lemma backend_reply_has_no_bucket now presigned filename filetype :
  Backend.bucket (Backend.get_upload_url now presigned filename filetype)
  = Undefined.
Proof. destruct presigned; reflexivity. Qed.

(** With the authorization this backend issues, a completed transfer
    stores a location whose host starts with the text "undefined". *)
Lemma backend_location now presignedurl reason evs fileInfo :
  outcome_of
    (mkNetwork
       (inr (received reason
               (Backend.get_upload_url now (Some presignedurl)
                  (name fileInfo) (type fileInfo))))
       evs None)
  = Succeeded ("https://undefined.s3.amazonaws.com/"
               ++ "uploads/" ++ Backend.decimal now ++ "-" ++ name fileInfo).
Proof. reflexivity. Qed.

(** ** Scenario A *)

(** C7, at scenario A.  The backend replies with the key
    "uploads/123-a.png" and no bucket; the transfer succeeds; the record ends
    in [success] with progress 100 and a location that ends with the key,
    but whose bucket part is the text "undefined". *)
Theorem scenario_a_location :
  json authorized_a
  = inr (Undefined, Str "uploads/123-a.png", Str "https://u") /\
  files (app (reached uuid blob
                [Pick [a_png] (fun _ => smooth); Resume 0; Resume 0])) =
    [mkFileInfo a_png "blob:0" "id-0" "a.png" 1000 "image/png"
                success (Num 100)
                (Some "https://undefined.s3.amazonaws.com/uploads/123-a.png")
                None].
Proof. split; reflexivity. Qed.

(** ** Progress *)

Lemma round_div_mono a b d :
  0 < d -> a <= b -> jsnum_le (round_div a d) (round_div b d).
Proof.
  intros Hd Hab. unfold round_div.
  destruct (N.eqb_spec d 0) as [E|E]; [lia|]. cbn [jsnum_le].
  apply N.Div0.div_le_mono. lia.
Qed.

Lemma steady_non_decreasing fileInfo evs :
  steady (size fileInfo) evs ->
  non_decreasing (map (fun ev => percentCompleted ev fileInfo) evs).
Proof.
  intros [d [Hd [Ht Hc]]].
  induction evs as [|e1 evs IH]; [exact I|].
  destruct evs as [|e2 evs]; [exact I|].
  cbn [map non_decreasing]. cbn [map cumulative] in Hc.
  destruct Hc as [H12 Hc].
  pose proof (Forall_inv Ht) as H1. pose proof (Forall_inv_tail Ht) as Ht'.
  pose proof (Forall_inv Ht') as H2. cbn beta in H1, H2. split.
  - unfold percentCompleted. rewrite H1, H2.
    apply round_div_mono; [assumption|lia].
  - apply IH; assumption.
Qed.

(** C2 fails as stated: the transport reports 500 then 300 of 1000 bytes and
    the record shows 0, 50, 30 and then 100; nothing clamps the 30. *)
Lemma regressing_transport_regresses_progress :
  delivered regressing record_a = [Num 50; Num 30] /\
  ~ non_decreasing (delivered regressing record_a) /\
  map (map progress) (observed (attempt regressing record_a) [record_a])
  = [[Num 0]; [Num 50]; [Num 30]; [Num 100]].
Proof.
  split; [reflexivity|]. split; [|reflexivity].
  intros [H _]. cbn in H. lia.
Qed.

Lemma written_spread u f : progress (spread u f) = written u.
Proof. destruct u; reflexivity. Qed.

(** The progress one card shows while a trace addressed to its record is
    applied: what each updater writes, in order. *)
Lemma observed_progress i tr :
  (forall j u, In (Updater j u) tr -> j = i) ->
  forall prev n g,
    nth_error prev n = Some g -> id g = i ->
    map (fun shown => option_map progress (nth_error shown n))
        (observed tr prev)
    = map (fun u => Some (written u)) (updates tr).
Proof.
  induction tr as [|x tr IH]; intros Htr prev n g Hn Hi; [reflexivity|].
  assert (Htl : forall j u, In (Updater j u) tr -> j = i)
    by (intros j u H; apply (Htr j u); right; exact H).
  destruct x as [j u| |]; cbn [observed updates];
    try (apply (IH Htl prev n g); assumption).
  assert (j = i) by (apply (Htr j u); left; reflexivity). subst j.
  assert (E : nth_error (setFiles i u prev) n = Some (spread u g)).
  { rewrite setFiles_nth, Hn. cbn. subst i. now rewrite String.eqb_refl. }
  cbn [map]. rewrite E. cbn [option_map]. rewrite written_spread. f_equal.
  apply (IH Htl (setFiles i u prev) n (spread u g));
    [exact E|now rewrite spread_id].
Qed.

(** C2, amended.  When the authorization came back usable, the attempt is:
    the uploading mark, the authorization request, the transfer, then for
    each notification of the transport, in order, an updater that writes
    [Math.round (loaded * 100 / (total || size))] as it is, and last the
    success updater when the transfer resolved or the error updater when
    it rejected.  The card of the record therefore shows 0, then each of
    these percentages as reported, without comparison with the one shown
    before, then 100 or 0.  The percentages are non-decreasing when the
    transport reports non-decreasing counts against one positive total.
    For every network, the progress the card shows last is that of the
    record once the attempt is over, and it is 100 exactly when the record
    is in [success]; it is 0 exactly when the record is in [error], and
    the attempt ends in one of the two.  Percentages are taken on counts
    for which the division is the one the code computes. *)
Theorem progress_follows_the_transport (net : Network) (fileInfo : FileInfo) :
  (forall response bucket key target,
     fetched net = inr response -> ok response = true ->
     json response = inr (bucket, key, target) ->
     Forall (exact_percent (size fileInfo)) (events net) ->
     let percents :=
       map (fun ev => round_div (loaded ev * 100)
                        (total_or (total ev) (size fileInfo)))
           (events net) in
     attempt net fileInfo =
       ([Updater (id fileInfo) SetUploading;
         Fetch (name fileInfo) (type fileInfo);
         Put target (type fileInfo)]
        ++ map (fun p => Updater (id fileInfo) (SetProgress p)) percents
        ++ [Updater (id fileInfo)
              match transferred net with
              | None =>
                  SetSuccess ("https://" ++ template bucket
                              ++ ".s3.amazonaws.com/" ++ template key)
              | Some e =>
                  SetError match e with
                           | ErrorInstance message => message
                           | OtherValue => "Failed to upload file"
                           end
              end])%list /\
     (forall prev n g,
        nth_error prev n = Some g -> id g = id fileInfo ->
        map (fun shown => option_map progress (nth_error shown n))
            (observed (attempt net fileInfo) prev)
        = map Some (Num 0 :: percents
                    ++ [match transferred net with
                        | None => Num 100
                        | Some _ => Num 0
                        end])%list) /\
     (steady (size fileInfo) (events net) -> non_decreasing percents)) /\
  (forall prev n g,
     nth_error prev n = Some g -> id g = id fileInfo ->
     exists seen r,
       map (fun shown => option_map progress (nth_error shown n))
           (observed (attempt net fileInfo) prev)
       = (seen ++ [Some (progress r)])%list /\
       nth_error (run (attempt net fileInfo) prev) n = Some r /\
       (progress r = Num 100 <-> status r = success) /\
       (progress r = Num 0 <-> status r = error) /\
       (status r = success \/ status r = error)).
Proof.
  split.
  - intros response bucket key target Hf Hok Hj _. cbn zeta.
    assert (Ht : transfer_target net = Some target).
    { unfold transfer_target. rewrite Hf, Hok, Hj. reflexivity. }
    assert (Hd : delivered net fileInfo
                 = map (fun ev => round_div (loaded ev * 100)
                                    (total_or (total ev) (size fileInfo)))
                       (events net)).
    { unfold delivered. rewrite Ht. reflexivity. }
    assert (Ho : final_update (outcome_of net)
                 = match transferred net with
                   | None =>
                       SetSuccess ("https://" ++ template bucket
                                   ++ ".s3.amazonaws.com/" ++ template key)
                   | Some e =>
                       SetError match e with
                                | ErrorInstance message => message
                                | OtherValue => "Failed to upload file"
                                end
                   end).
    { unfold outcome_of. rewrite Hf, Hok, Hj. cbn [negb].
      destruct (transferred net) as [[m|]|]; reflexivity. }
    split; [|split].
    + rewrite attempt_shape, Ht, Hd, Ho. reflexivity.
    + intros prev n g Hn Hi.
      rewrite (observed_progress (id fileInfo) _
                 (attempt_updaters net fileInfo) prev n g Hn Hi).
      rewrite attempt_updates, Hd, Ho.
      cbn [map]. rewrite !map_app, !map_map. cbn [map written].
      destruct (transferred net); reflexivity.
    + intros H. apply (steady_non_decreasing fileInfo (events net) H).
  - intros prev n g Hn Hi.
    destruct (attempt_result net fileInfo prev n g Hn Hi) as [r [E _]].
    exists (map (fun u => Some (written u))
                (SetUploading :: map SetProgress (delivered net fileInfo))).
    exists (spread (final_update (outcome_of net)) r).
    split; [|split; [exact E|]].
    + rewrite (observed_progress (id fileInfo) _
                 (attempt_updaters net fileInfo) prev n g Hn Hi).
      rewrite attempt_updates, written_spread.
      change (SetUploading :: map SetProgress (delivered net fileInfo)
              ++ [final_update (outcome_of net)])%list
        with ((SetUploading :: map SetProgress (delivered net fileInfo))
              ++ [final_update (outcome_of net)])%list.
      rewrite map_app. reflexivity.
    + destruct (outcome_of net) as [location|message]; cbn;
        repeat split; try congruence; try discriminate;
        try (left; reflexivity); try (right; reflexivity).
Qed.

(** ** Retry *)

Lemma find_by_id i l f :
  find (fun g => String.eqb (id g) i) l = Some f -> In f l /\ id f = i.
Proof.
  intros H. apply find_some in H. destruct H as [H E].
  apply String.eqb_eq in E. split; assumption.
Qed.

Lemma retryUpload_found i st f :
  find (fun g => String.eqb (id g) i) (files st) = Some f ->
  retryUpload i st =
    (mkApp (setFiles i SetUploading (files st)) (fileError st) (drawn st),
     [Updater i SetUploading; Fetch (name f) (type f)]).
Proof.
  intros H. unfold retryUpload. rewrite H.
  destruct (find_by_id _ _ _ H) as [_ <-]. reflexivity.
Qed.

Lemma retry_button_spec f : retry_button_shown f = true <-> status f = error.
Proof.
  unfold retry_button_shown. destruct (status f); cbn; split; congruence.
Qed.

(** C3 fails as stated: the record whose authorization was refused keeps
    its message when [retryUpload] marks it uploading. *)
Lemma retry_keeps_the_error_message :
  files refused =
    [mkFileInfo a_png "blob:0" "id-0" "a.png" 1000 "image/png" error (Num 0)
                None (Some "Failed to get upload URL: Internal Server Error")] /\
  retryUpload "id-0" refused =
    (mkApp [mkFileInfo a_png "blob:0" "id-0" "a.png" 1000 "image/png"
                       uploading (Num 0) None
                       (Some "Failed to get upload URL: Internal Server Error")]
           "" 1,
     [Updater "id-0" SetUploading; Fetch "a.png" "image/png"]).
Proof. split; reflexivity. Qed.

(** C3, amended.  A retry of a record in [error] first marks the record
    uploading with progress 0 and then issues the authorization request with
    the record's name and type; the message of the failed attempt is not
    cleared, the record keeps it (and its location field) unchanged. *)
Theorem retry_resets_progress_only (st : App) (i : string) (f : FileInfo) :
  find (fun g => String.eqb (id g) i) (files st) = Some f ->
  status f = error ->
  snd (retryUpload i st) = [Updater i SetUploading; Fetch (name f) (type f)] /\
  files (fst (retryUpload i st)) = setFiles i SetUploading (files st) /\
  forall n g, nth_error (files st) n = Some g -> id g = i ->
    exists r, nth_error (files (fst (retryUpload i st))) n = Some r /\
              status r = uploading /\ progress r = Num 0 /\
              errorMessage r = errorMessage g /\ url r = url g.
Proof.
  intros Hf _. rewrite (retryUpload_found _ _ _ Hf). cbn [fst snd files].
  split; [reflexivity|]. split; [reflexivity|].
  intros n g Hn Hi. exists (spread SetUploading g).
  rewrite setFiles_nth, Hn. cbn [option_map]. subst i.
  rewrite String.eqb_refl. repeat split.
Qed.

(** ** Attempts in flight *)

Lemma closing_progress_final ps u :
  final u -> closing (map SetProgress ps ++ [u]).
Proof.
  intros Hu. induction ps as [|p ps IH]; [exact Hu|].
  change (closing (SetProgress p :: (map SetProgress ps ++ [u]))).
  destruct (map SetProgress ps ++ [u])%list as [|v vs] eqn:E.
  - destruct (map SetProgress ps); discriminate.
  - change ((exists q, SetProgress p = SetProgress q) /\ closing (v :: vs)).
    split; [now exists p|exact IH].
Qed.

Lemma closing_suspended net fileInfo : closing (snd (suspended net fileInfo)).
Proof.
  unfold suspended. cbn [snd]. rewrite attempt_updates. cbn [tl].
  apply closing_progress_final. destruct (outcome_of net); exact I.
Qed.

Lemma closing_tail u us : closing (u :: us) -> closing us.
Proof. destruct us; [intros _; exact I|intros [_ H]; exact H]. Qed.

Lemma closing_head u us :
  closing (u :: us) ->
  (final u /\ us = []) \/ (exists p, u = SetProgress p).
Proof. destruct us; [intros H; left; now split|intros [H _]; now right]. Qed.

Lemma nth_error_replace_nth {A} (l : list A) k x y k' :
  nth_error l k = Some y ->
  nth_error (replace_nth k x l) k'
  = if Nat.eqb k' k then Some x else nth_error l k'.
Proof.
  intros H. destruct (nth_error_split l k H) as [l1 [l2 [-> Hlen]]].
  unfold replace_nth. subst k.
  rewrite firstn_app, firstn_all, Nat.sub_diag, firstn_O, app_nil_r.
  replace (skipn (S (List.length l1)) (l1 ++ y :: l2)) with l2.
  2:{ rewrite skipn_app, skipn_all2 by lia.
      replace (S (List.length l1) - List.length l1)%nat with 1%nat by lia.
      reflexivity. }
  rewrite !nth_error_app.
  destruct (Nat.eqb_spec k' (List.length l1)) as [->|Hne].
  - rewrite Nat.ltb_irrefl, Nat.sub_diag. reflexivity.
  - destruct (Nat.ltb_spec k' (List.length l1)); [reflexivity|].
    destruct (k' - List.length l1)%nat eqn:E; [lia|reflexivity].
Qed.

Lemma setFiles_ids i u l : map id (setFiles i u l) = map id l.
Proof.
  unfold setFiles. rewrite map_map. apply map_ext. intros f.
  destruct (String.eqb (id f) i); [apply spread_id|reflexivity].
Qed.

Lemma In_setFiles i u l r :
  In r (setFiles i u l) ->
  exists f, In f l /\ ((id f <> i /\ r = f) \/ (id f = i /\ r = spread u f)).
Proof.
  unfold setFiles. intros H. apply in_map_iff in H.
  destruct H as [f [E Hf]]. exists f. split; [exact Hf|].
  destruct (String.eqb_spec (id f) i); [right|left]; split; congruence.
Qed.

Lemma NoDup_ids_filter (p : FileInfo -> bool) l :
  NoDup (map id l) -> NoDup (map id (filter p l)).
Proof.
  induction l as [|f l IH]; intros H; [constructor|].
  cbn [map] in H. apply NoDup_cons_iff in H. destruct H as [Hn H].
  cbn [filter]. destruct (p f); [|apply IH, H].
  cbn [map]. constructor; [|apply IH, H].
  intros Hin. apply Hn. apply in_map_iff in Hin.
  destruct Hin as [g [E Hg]]. apply filter_In in Hg.
  apply in_map_iff. exists g. tauto.
Qed.

Lemma same_id_same_card l m n g f :
  NoDup (map id l) ->
  nth_error l m = Some g -> nth_error l n = Some f -> id g = id f -> m = n.
Proof.
  intros Hnd Hm Hn E.
  apply (proj1 (NoDup_nth_error (map id l)) Hnd).
  - rewrite length_map. apply nth_error_Some. congruence.
  - rewrite !nth_error_map, Hm, Hn. cbn. now rewrite E.
Qed.

Lemma same_id_same_record l g f :
  NoDup (map id l) -> In g l -> In f l -> id g = id f -> g = f.
Proof.
  intros Hnd Hg Hf E.
  apply In_nth_error in Hg. destruct Hg as [m Hm].
  apply In_nth_error in Hf. destruct Hf as [n Hn].
  assert (m = n) by exact (same_id_same_card _ _ _ _ _ Hnd Hm Hn E).
  subst n. congruence.
Qed.

Lemma consistent_unlocated r u :
  url r = None -> (u = SetUploading \/ exists m, u = SetError m) ->
  consistent (spread u r).
Proof.
  intros Hu [->|[m ->]]; unfold consistent; cbn [spread status url errorMessage];
    rewrite Hu; (split; [split; [intros H; now contradiction H|discriminate]|]);
    split; intros; discriminate.
Qed.

Lemma launch_owners answers news : forall k,
  map fst (launch answers k news) = map id news.
Proof.
  induction news as [|r news IH]; intros k; [reflexivity|].
  cbn [launch map]. rewrite IH. reflexivity.
Qed.

Lemma launch_closing answers news : forall k i us,
  In (i, us) (launch answers k news) -> closing us.
Proof.
  induction news as [|r news IH]; intros k i us H; [destruct H|].
  destruct H as [H|H]; [|exact (IH _ _ _ H)].
  change us with (snd (i, us)). rewrite <- H. apply closing_suspended.
Qed.

Section Drawn.

Variable randomUUID : nat -> string.
Variable createObjectURL : nat -> string.

Lemma created_ids cs : forall n,
  map id (created randomUUID createObjectURL n cs)
  = map randomUUID (seq n (List.length (filter within_policy cs))).
Proof.
  induction cs as [|c cs IH]; intros n; [reflexivity|].
  cbn [created filter]. destruct (within_policy c); [|apply IH].
  cbn [map List.length seq record_of id]. rewrite IH. reflexivity.
Qed.

Lemma created_uploading_after_intake cs st :
  (forall f r, In f (files st) ->
     In r (created randomUUID createObjectURL (drawn st) cs) ->
     id f <> id r) ->
  files (fst (validateAndAddFiles randomUUID createObjectURL cs st))
  = (files st
     ++ map (spread SetUploading)
            (created randomUUID createObjectURL (drawn st) cs))%list.
Proof.
  intros H. rewrite intake_files, run_auto_upload, partition_batch_eq.
  cbn [newFiles]. rewrite map_app, started_own, started_fresh by exact H.
  reflexivity.
Qed.

Lemma intake_drawn cs st :
  drawn (fst (validateAndAddFiles randomUUID createObjectURL cs st))
  = (drawn st + List.length (filter within_policy cs))%nat.
Proof.
  unfold validateAndAddFiles. destruct cs as [|c cs].
  - cbn. lia.
  - cbn [List.length Nat.ltb Nat.leb fst drawn].
    rewrite partition_batch_eq. reflexivity.
Qed.

End Drawn.

Section Soundness.

Variable randomUUID : nat -> string.
Variable createObjectURL : nat -> string.
Hypothesis never_repeats : forall a b, randomUUID a = randomUUID b -> a = b.

Local Abbreviation act' := (act randomUUID createObjectURL).
Local Abbreviation sound' := (sound randomUUID).

Lemma sound_booted : sound' booted.
Proof.
  constructor; cbn; try (intros; contradiction); try constructor.
  intros k k' i us us' H. destruct k; discriminate.
Qed.

Lemma sound_remove sys n : sound' sys -> sound' (act' sys (ClickRemove n)).
Proof.
  intros S. cbn [act].
  destruct (nth_error (files (app sys)) n) as [f|]; [|exact S].
  destruct S as [S1 S2 S3 S4 S5 S6 S7].
  constructor; cbn [app inflight removeFile files drawn]; try assumption.
  - apply NoDup_ids_filter, S1.
  - intros g Hg. apply filter_In in Hg. apply S2, Hg.
  - intros g Hg. apply filter_In in Hg. apply S5, Hg.
  - apply Forall_forall. intros g Hg. apply filter_In in Hg.
    destruct Hg as [Hg _]. revert g Hg. apply Forall_forall. exact S7.
Qed.

Lemma sound_resume sys k : sound' sys -> sound' (act' sys (Resume k)).
Proof.
  intros S. cbn [act].
  destruct (nth_error (inflight sys) k) as [[i [|u us]]|] eqn:Hk;
    try exact S.
  destruct S as [S1 S2 S3 S4 S5 S6 S7].
  assert (Hin : In (i, u :: us) (inflight sys)) by exact (nth_error_In _ _ Hk).
  assert (Hold : forall k' j vs,
             nth_error (replace_nth k (i, us) (inflight sys)) k' = Some (j, vs) ->
             (k' = k /\ j = i /\ vs = us) \/
             (k' <> k /\ nth_error (inflight sys) k' = Some (j, vs))).
  { intros k' j vs H. rewrite (nth_error_replace_nth _ _ _ _ _ Hk) in H.
    destruct (Nat.eqb_spec k' k); [left|right; tauto].
    injection H as <- <-. tauto. }
  constructor; cbn [app inflight files drawn].
  - rewrite setFiles_ids. exact S1.
  - intros r Hr. apply In_setFiles in Hr.
    destruct Hr as [f [Hf [[_ ->]|[_ ->]]]]; [|rewrite spread_id]; apply S2, Hf.
  - intros j vs H. apply In_nth_error in H. destruct H as [k' H].
    destruct (Hold _ _ _ H) as [[_ [-> _]]|[_ H']].
    + exact (S3 _ _ Hin).
    + exact (S3 _ _ (nth_error_In _ _ H')).
  - intros j vs H. apply In_nth_error in H. destruct H as [k' H].
    destruct (Hold _ _ _ H) as [[_ [_ ->]]|[_ H']].
    + exact (closing_tail _ _ (S4 _ _ Hin)).
    + exact (S4 _ _ (nth_error_In _ _ H')).
  - intros r Hr Hs vs H. apply In_nth_error in H. destruct H as [k' H].
    apply In_setFiles in Hr. destruct Hr as [f [Hf [[Hne ->]|[He ->]]]].
    + destruct (Hold _ _ _ H) as [[_ [E _]]|[_ H']]; [congruence|].
      exact (S5 f Hf Hs vs (nth_error_In _ _ H')).
    + rewrite spread_id in H.
      destruct (closing_head _ _ (S4 _ _ Hin)) as [[Hu Hus]|[p Hp]].
      * destruct (Hold _ _ _ H) as [[_ [_ ->]]|[Hk' H']]; [exact Hus|].
        destruct vs as [|v vs]; [reflexivity|]. exfalso. apply Hk'.
        rewrite He in H'.
        apply (S6 k' k i (v :: vs) (u :: us) H' Hk); discriminate.
      * subst u. cbn [spread status] in Hs. exfalso.
        rewrite <- He in Hin. discriminate (S5 f Hf Hs _ Hin).
  - intros k1 k2 j vs vs' H1 H2 L1 L2.
    destruct (Hold _ _ _ H1) as [[-> [-> ->]]|[N1 H1']];
      destruct (Hold _ _ _ H2) as [[-> [E2 ->]]|[N2 H2']]; try reflexivity.
    + exfalso. apply N2. symmetry.
      apply (S6 k k2 i (u :: us) vs' Hk H2'); [discriminate|exact L2].
    + exfalso. apply N1. subst j.
      apply (S6 k1 k i vs (u :: us) H1' Hk); [exact L1|discriminate].
    + exact (S6 _ _ _ _ _ H1' H2' L1 L2).
  - apply Forall_forall. intros r Hr.
    assert (C : forall g, In g (files (app sys)) -> consistent g)
      by (apply Forall_forall; exact S7).
    apply In_setFiles in Hr. destruct Hr as [g [Hg [[_ ->]|[He ->]]]];
      [exact (C g Hg)|].
    destruct (closing_head _ _ (S4 _ _ Hin)) as [[Hu _]|[p ->]];
      [|exact (C g Hg)].
    destruct u as [|p|location|message]; try contradiction.
    + destruct (C g Hg) as [_ [_ _]]. unfold consistent.
      cbn [spread status url errorMessage].
      split; [split; [reflexivity|discriminate]|].
      split; intros; discriminate.
    + apply consistent_unlocated; [|right; now exists message].
      destruct (url g) as [location|] eqn:Eu; [exfalso|reflexivity].
      assert (Hs : status g = success)
        by (apply (proj1 (C g Hg)); rewrite Eu; discriminate).
      assert (Hs' : status g <> uploading) by (rewrite Hs; discriminate).
      rewrite <- He in Hin. discriminate (S5 g Hg Hs' _ Hin).
Qed.

Lemma sound_retry sys n answer :
  sound' sys -> sound' (act' sys (ClickRetry n answer)).
Proof.
  intros S. cbn [act].
  destruct (nth_error (files (app sys)) n) as [f|] eqn:Hn; [|exact S].
  unfold click_retry. rewrite Hn.
  destruct (retry_button_shown f) eqn:Hb; [|exact S].
  destruct (find (fun g => String.eqb (id g) (id f)) (files (app sys)))
    as [f0|] eqn:Hf; [|unfold retryUpload; rewrite Hf; exact S].
  rewrite (retryUpload_found _ _ _ Hf).
  assert (Hf_in : In f (files (app sys))) by exact (nth_error_In _ _ Hn).
  assert (Hf_err : status f <> uploading).
  { unfold retry_button_shown in Hb. destruct (status f); discriminate. }
  destruct (find_by_id _ _ _ Hf) as [_ Hid0].
  destruct S as [S1 S2 S3 S4 S5 S6 S7].
  assert (Hnew : forall k j vs,
            nth_error (inflight sys ++ [suspended answer f0]) k = Some (j, vs) ->
            (k < List.length (inflight sys))%nat /\
              nth_error (inflight sys) k = Some (j, vs)
            \/ k = List.length (inflight sys) /\ j = id f /\
               (j, vs) = suspended answer f0).
  { intros k j vs H. rewrite nth_error_app in H.
    destruct (Nat.ltb_spec k (List.length (inflight sys))); [left; tauto|right].
    destruct (k - List.length (inflight sys))%nat as [|d] eqn:E.
    - cbn [nth_error] in H.
      assert (Hs : suspended answer f0 = (j, vs)) by congruence.
      split; [lia|]. split; [|symmetry; exact Hs].
      unfold suspended in Hs. congruence.
    - destruct d; discriminate. }
  constructor; cbn [app inflight files drawn].
  - rewrite setFiles_ids. exact S1.
  - intros r Hr. apply In_setFiles in Hr.
    destruct Hr as [g [Hg [[_ ->]|[_ ->]]]]; [|rewrite spread_id]; apply S2, Hg.
  - intros j vs H. apply In_nth_error in H. destruct H as [k H].
    destruct (Hnew _ _ _ H) as [[_ H']|[_ [-> _]]].
    + exact (S3 _ _ (nth_error_In _ _ H')).
    + exact (S2 f Hf_in).
  - intros j vs H. apply In_nth_error in H. destruct H as [k H].
    destruct (Hnew _ _ _ H) as [[_ H']|[_ [_ E]]].
    + exact (S4 _ _ (nth_error_In _ _ H')).
    + change vs with (snd (j, vs)). rewrite E. apply closing_suspended.
  - intros r Hr Hs vs H. apply In_nth_error in H. destruct H as [k H].
    apply In_setFiles in Hr. destruct Hr as [g [Hg [[Hne ->]|[_ ->]]]].
    + destruct (Hnew _ _ _ H) as [[_ H']|[_ [E _]]]; [|congruence].
      exact (S5 g Hg Hs vs (nth_error_In _ _ H')).
    + exfalso. apply Hs. reflexivity.
  - intros k1 k2 j vs vs' H1 H2 L1 L2.
    destruct (Hnew _ _ _ H1) as [[_ H1']|[-> [E1 _]]];
      destruct (Hnew _ _ _ H2) as [[_ H2']|[-> [E2 _]]]; try reflexivity.
    + exact (S6 _ _ _ _ _ H1' H2' L1 L2).
    + exfalso. apply L1. subst j.
      exact (S5 f Hf_in Hf_err vs (nth_error_In _ _ H1')).
    + exfalso. apply L2. subst j.
      exact (S5 f Hf_in Hf_err vs' (nth_error_In _ _ H2')).
  - apply Forall_forall. intros r Hr.
    assert (C : forall g, In g (files (app sys)) -> consistent g)
      by (apply Forall_forall; exact S7).
    apply In_setFiles in Hr. destruct Hr as [g [Hg [[_ ->]|[He ->]]]];
      [exact (C g Hg)|].
    apply consistent_unlocated; [|now left].
    destruct (url g) as [location|] eqn:Eu; [exfalso|reflexivity].
    assert (Hs : status g = success)
      by (apply (proj1 (C g Hg)); rewrite Eu; discriminate).
    assert (g = f) by exact (same_id_same_record _ _ _ S1 Hg Hf_in He).
    subst g. apply retry_button_spec in Hb. congruence.
Qed.

End Soundness.

Section Finality.

Variable randomUUID : nat -> string.
Variable createObjectURL : nat -> string.
Hypothesis never_repeats : forall a b, randomUUID a = randomUUID b -> a = b.

Local Abbreviation act' := (act randomUUID createObjectURL).
Local Abbreviation sound' := (sound randomUUID).
Local Abbreviation created' := (created randomUUID createObjectURL).

Lemma created_in_range cs n i :
  In i (map id (created' n cs)) ->
  exists m, (n <= m < n + List.length (filter within_policy cs))%nat
            /\ i = randomUUID m.
Proof.
  rewrite created_ids, in_map_iff. intros [m [E Hm]].
  apply in_seq in Hm. exists m. split; [lia|now symmetry].
Qed.

Lemma created_distinct cs n : NoDup (map id (created' n cs)).
Proof.
  rewrite created_ids. apply Finite.Injective_map_NoDup; [|apply seq_NoDup].
  intros a b. apply never_repeats.
Qed.

Lemma created_apart sys cs f r :
  sound' sys -> In f (files (app sys)) ->
  In r (created' (drawn (app sys)) cs) -> id f <> id r.
Proof.
  intros S Hf Hr E. destruct (ids_drawn _ _ S f Hf) as [n [Hn En]].
  destruct (created_in_range cs (drawn (app sys)) (id r)
              (in_map id _ _ Hr)) as [m [Hm Em]].
  assert (n = m) by (apply never_repeats; congruence). lia.
Qed.

Lemma sound_pick sys cs answers :
  sound' sys -> sound' (act' sys (Pick cs answers)).
Proof.
  intros S. cbn [act]. rewrite partition_batch_eq. cbn [newFiles].
  set (news := created' (drawn (app sys)) cs).
  assert (Hfiles : files (fst (validateAndAddFiles randomUUID createObjectURL
                                 cs (app sys)))
                   = (files (app sys) ++ map (spread SetUploading) news)%list).
  { apply created_uploading_after_intake. intros f r. apply created_apart, S. }
  assert (Hold : forall i, (exists n, (n < drawn (app sys))%nat /\ i = randomUUID n) ->
                           ~ In i (map id news)).
  { intros i [n [Hn En]] Hi.
    destruct (created_in_range _ _ _ Hi) as [m [Hm Em]].
    assert (n = m) by (apply never_repeats; congruence). lia. }
  assert (Hpos : forall k j vs,
            nth_error (inflight sys ++ launch answers 0 news) k = Some (j, vs) ->
            (k < List.length (inflight sys))%nat /\
              nth_error (inflight sys) k = Some (j, vs)
            \/ (List.length (inflight sys) <= k)%nat /\
               nth_error (map id news) (k - List.length (inflight sys)) = Some j /\
               closing vs).
  { intros k j vs H. rewrite nth_error_app in H.
    destruct (Nat.ltb_spec k (List.length (inflight sys))); [left; tauto|right].
    split; [assumption|]. split.
    - rewrite <- (launch_owners answers news 0), nth_error_map, H. reflexivity.
    - exact (launch_closing _ _ _ _ _ (nth_error_In _ _ H)). }
  destruct S as [S1 S2 S3 S4 S5 S6 S7].
  constructor; cbn [app inflight]; rewrite ?Hfiles, ?intake_drawn.
  - rewrite map_app, map_map.
    change (map (fun r => id (spread SetUploading r)) news)
      with (map id news).
    apply NoDup_app; [exact S1|apply created_distinct|].
    intros i Hi. apply Hold. apply in_map_iff in Hi.
    destruct Hi as [f [<- Hf]]. exact (S2 f Hf).
  - intros f Hf. apply in_app_or in Hf. destruct Hf as [Hf|Hf].
    + destruct (S2 f Hf) as [n [Hn En]]. exists n. split; [lia|exact En].
    + apply in_map_iff in Hf. destruct Hf as [r [<- Hr]]. rewrite spread_id.
      destruct (created_in_range _ _ _ (in_map id _ _ Hr)) as [m [Hm Em]].
      exists m. split; [lia|exact Em].
  - intros j vs H. apply In_nth_error in H. destruct H as [k H].
    destruct (Hpos _ _ _ H) as [[_ H']|[_ [H' _]]].
    + destruct (S3 _ _ (nth_error_In _ _ H')) as [n [Hn En]].
      exists n. split; [lia|exact En].
    + destruct (created_in_range _ _ _ (nth_error_In _ _ H')) as [m [Hm Em]].
      exists m. split; [lia|exact Em].
  - intros j vs H. apply In_nth_error in H. destruct H as [k H].
    destruct (Hpos _ _ _ H) as [[_ H']|[_ [_ H']]]; [|exact H'].
    exact (S4 _ _ (nth_error_In _ _ H')).
  - intros r Hr Hs vs H. apply In_nth_error in H. destruct H as [k H].
    apply in_app_or in Hr. destruct Hr as [Hr|Hr].
    + destruct (Hpos _ _ _ H) as [[_ H']|[_ [H' _]]].
      * exact (S5 r Hr Hs vs (nth_error_In _ _ H')).
      * exfalso. exact (Hold _ (S2 r Hr) (nth_error_In _ _ H')).
    + exfalso. apply Hs. apply in_map_iff in Hr.
      destruct Hr as [x [<- _]]. reflexivity.
  - intros k1 k2 j vs vs' H1 H2 L1 L2.
    destruct (Hpos _ _ _ H1) as [[_ H1']|[G1 [H1' _]]];
      destruct (Hpos _ _ _ H2) as [[_ H2']|[G2 [H2' _]]].
    + exact (S6 _ _ _ _ _ H1' H2' L1 L2).
    + exfalso. exact (Hold _ (S3 _ _ (nth_error_In _ _ H1'))
                        (nth_error_In _ _ H2')).
    + exfalso. exact (Hold _ (S3 _ _ (nth_error_In _ _ H2'))
                        (nth_error_In _ _ H1')).
    + assert ((k1 - List.length (inflight sys))%nat
              = (k2 - List.length (inflight sys))%nat); [|lia].
      apply (proj1 (NoDup_nth_error (map id news)) (created_distinct cs _)).
      * apply nth_error_Some. congruence.
      * congruence.
  - apply Forall_app. split; [exact S7|].
    apply Forall_forall. intros r Hr. apply in_map_iff in Hr.
    destruct Hr as [x [<- Hx]]. apply consistent_unlocated; [|now left].
    pose proof (created_fresh randomUUID createObjectURL (drawn (app sys)) cs)
      as Hc.
    rewrite Forall_forall in Hc. exact (proj1 (proj2 (proj2 (Hc x Hx)))).
Qed.

Lemma sound_act sys a : sound' sys -> sound' (act' sys a).
Proof.
  destruct a.
  - apply sound_pick.
  - apply sound_remove.
  - apply sound_retry.
  - apply sound_resume.
Qed.

Lemma sound_reached acts : sound' (reached randomUUID createObjectURL acts).
Proof.
  unfold reached.
  assert (G : forall sys, sound' sys -> sound' (fold_left act' acts sys)).
  { induction acts as [|a acts IH]; intros sys S; [exact S|].
    cbn [fold_left]. apply IH, sound_act, S. }
  apply G, sound_booted.
Qed.

Lemma success_survives sys a m g :
  sound' sys ->
  nth_error (files (app sys)) m = Some g -> status g = success ->
  a <> ClickRemove m ->
  In g (files (app (act' sys a))).
Proof.
  intros S Hm Hg Ha.
  assert (Hin : In g (files (app sys))) by exact (nth_error_In _ _ Hm).
  destruct a as [cs answers|n|n answer|k]; cbn [act].
  - cbn [app]. rewrite created_uploading_after_intake.
    + apply in_or_app. left. exact Hin.
    + intros f r. apply created_apart, S.
  - destruct (nth_error (files (app sys)) n) as [f|] eqn:Hn; [|exact Hin].
    cbn [app removeFile files]. apply filter_In. split; [exact Hin|].
    destruct (String.eqb_spec (id g) (id f)) as [E|E]; [|reflexivity].
    exfalso. apply Ha. f_equal. symmetry.
    exact (same_id_same_card _ _ _ _ _ (distinct_ids _ _ S) Hm Hn E).
  - destruct (nth_error (files (app sys)) n) as [f|] eqn:Hn; [|exact Hin].
    unfold click_retry. rewrite Hn.
    destruct (retry_button_shown f) eqn:Hb; [|exact Hin].
    destruct (find (fun x => String.eqb (id x) (id f)) (files (app sys)))
      as [f0|] eqn:Hf; [|unfold retryUpload; rewrite Hf; exact Hin].
    rewrite (retryUpload_found _ _ _ Hf). cbn [app files].
    apply (nth_error_In _ m). apply setFiles_other; [exact Hm|].
    intros E.
    assert (m = n)
      by exact (same_id_same_card _ _ _ _ _ (distinct_ids _ _ S) Hm Hn E).
    subst n. assert (g = f) by congruence. subst f.
    unfold retry_button_shown in Hb. rewrite Hg in Hb. discriminate.
  - destruct (nth_error (inflight sys) k) as [[i [|u us]]|] eqn:Hk;
      try exact Hin.
    cbn [app files]. apply (nth_error_In _ m).
    apply setFiles_other; [exact Hm|]. intros E. subst i.
    assert (Hs : status g <> uploading) by (rewrite Hg; discriminate).
    discriminate (settled_idle _ _ S g Hin Hs _ (nth_error_In _ _ Hk)).
Qed.

End Finality.

(** ** A record that succeeded *)

(** C4 fails as stated: [a.png] is taken in, its authorization is refused,
    the user retries: the record is [uploading] and carries a message.  When
    the second attempt succeeds the record carries both fields. *)
Lemma retried_record_carries_a_message :
  files (app (reached uuid blob
                [Pick [a_png] (fun _ => refusing); Resume 0;
                 ClickRetry 0 smooth])) =
    [mkFileInfo a_png "blob:0" "id-0" "a.png" 1000 "image/png"
                uploading (Num 0) None
                (Some "Failed to get upload URL: Internal Server Error")] /\
  files (app (reached uuid blob
                [Pick [a_png] (fun _ => refusing); Resume 0;
                 ClickRetry 0 smooth; Resume 1; Resume 1])) =
    [mkFileInfo a_png "blob:0" "id-0" "a.png" 1000 "image/png"
                success (Num 100)
                (Some "https://undefined.s3.amazonaws.com/uploads/123-a.png")
                (Some "Failed to get upload URL: Internal Server Error")].
Proof. split; reflexivity. Qed.

(** With distinct identifiers, [files.find] by a card's identifier returns
    that card's record. *)
Lemma find_the_card l n f :
  NoDup (map id l) -> nth_error l n = Some f ->
  find (fun g => String.eqb (id g) (id f)) l = Some f.
Proof.
  intros Hnd Hn. pose proof (nth_error_In _ _ Hn) as Hf.
  destruct (find (fun g => String.eqb (id g) (id f)) l) as [f0|] eqn:E.
  - destruct (find_by_id _ _ _ E) as [H0 Hid].
    f_equal. exact (same_id_same_record _ _ _ Hnd H0 Hf Hid).
  - pose proof (find_none _ _ E f Hf) as H. cbn in H.
    rewrite String.eqb_refl in H. discriminate.
Qed.

Section Lifecycle.

Variable randomUUID : nat -> string.
Variable createObjectURL : nat -> string.
Hypothesis never_repeats : forall a b, randomUUID a = randomUUID b -> a = b.

Local Abbreviation act' := (act randomUUID createObjectURL).
Local Abbreviation reached' := (reached randomUUID createObjectURL).

(** C1.  With identifiers that never repeat, at every turn of the
    component: the card renders the retry button exactly for a record in
    [error]; for a card in another status (pending, uploading or success)
    there is no retry to click, and a retry turn on it changes nothing:
    no record is touched, no authorization is requested, no attempt is
    started; for a card in [error] the retry marks that record uploading,
    requests a new authorization with its name and type, and registers the
    new attempt; and a record in [success] is still in the set, unchanged,
    after any turn other than the removal of its own card. *)
Theorem success_is_final (acts : list action) :
  let sys := reached' acts in
  (forall f, retry_button_shown f = true <-> status f = error) /\
  (forall n answer f,
     nth_error (files (app sys)) n = Some f -> status f <> error ->
     click_retry n (app sys) = None /\
     act' sys (ClickRetry n answer) = sys) /\
  (forall n answer f,
     nth_error (files (app sys)) n = Some f -> status f = error ->
     click_retry n (app sys) =
       Some (mkApp (setFiles (id f) SetUploading (files (app sys)))
                   (fileError (app sys)) (drawn (app sys)),
             [Updater (id f) SetUploading; Fetch (name f) (type f)]) /\
     act' sys (ClickRetry n answer) =
       mkSystem (mkApp (setFiles (id f) SetUploading (files (app sys)))
                       (fileError (app sys)) (drawn (app sys)))
                (inflight sys
                 ++ [(id f, tl (updates (attempt answer f)))])) /\
  (forall a m g,
     nth_error (files (app sys)) m = Some g -> status g = success ->
     a <> ClickRemove m ->
     In g (files (app (act' sys a)))).
Proof.
  cbn zeta. split; [exact retry_button_spec|]. split; [|split].
  - intros n answer f Hn Hs.
    assert (E : click_retry n (app (reached' acts)) = None).
    { unfold click_retry. rewrite Hn.
      destruct (retry_button_shown f) eqn:E; [|reflexivity].
      apply retry_button_spec in E. contradiction. }
    split; [exact E|]. cbn [act]. rewrite Hn, E. reflexivity.
  - intros n answer f Hn Hs.
    pose proof (find_the_card _ _ _
                  (distinct_ids _ _ (sound_reached randomUUID createObjectURL
                                       never_repeats acts)) Hn) as Hf.
    assert (E : click_retry n (app (reached' acts)) =
                Some (mkApp (setFiles (id f) SetUploading
                               (files (app (reached' acts))))
                            (fileError (app (reached' acts)))
                            (drawn (app (reached' acts))),
                      [Updater (id f) SetUploading; Fetch (name f) (type f)])).
    { unfold click_retry. rewrite Hn.
      apply retry_button_spec in Hs. rewrite Hs.
      rewrite (retryUpload_found _ _ _ Hf). reflexivity. }
    split; [exact E|]. cbn [act]. rewrite Hn, E, Hf. reflexivity.
  - intros a m g. apply success_survives; [exact never_repeats|].
    apply sound_reached, never_repeats.
Qed.

(** C4, amended.  With identifiers that never repeat, at every turn of the
    component and for every record: the location is present if and only if
    the status is [success]; a record in [error] has a message; a record in
    [pending] has none.  (A message is not confined to [error]: no updater
    removes it, so it stays through a retry and a later success.) *)
Theorem fields_follow_status (acts : list action) :
  Forall consistent (files (app (reached' acts))).
Proof. apply (fields randomUUID), sound_reached, never_repeats. Qed.

End Lifecycle.

(** ** The theorems at concrete inputs *)

Lemma decimal_injective a b : Backend.decimal a = Backend.decimal b -> a = b.
Proof.
  unfold Backend.decimal. intros H.
  assert (Hn : forall n, N.to_uint n <> Decimal.Nil).
  { intros [|p]; [discriminate|apply DecimalPos.Unsigned.to_uint_nonnil]. }
  apply (f_equal NilZero.uint_of_string) in H.
  rewrite !NilZero.usu in H by apply Hn.
  injection H as H. apply DecimalN.Unsigned.to_uint_inj, H.
Qed.

Lemma uuid_never_repeats a b : uuid a = uuid b -> a = b.
Proof.
  unfold uuid. intros H. cbn [append] in H. injection H as H.
  apply Nat2N.inj, decimal_injective, H.
Qed.

Lemma success_is_final_witness :
  map status (files (app two_cards)) = [success; error] /\
  act uuid blob two_cards (ClickRetry 0 smooth) = two_cards /\
  In (mkFileInfo a_png "blob:0" "id-0" "a.png" 1000 "image/png"
                 success (Num 100)
                 (Some "https://undefined.s3.amazonaws.com/uploads/123-a.png")
                 None)
     (files (app (act uuid blob two_cards (ClickRetry 1 smooth)))).
Proof.
  split; [reflexivity|].
  destruct (success_is_final uuid blob uuid_never_repeats
              [Pick [a_png; d_gif]
                    (fun k => if Nat.eqb k 0 then smooth else breaking);
               Resume 0; Resume 1; Resume 0; Resume 1])
    as [_ [Hidle [_ Hkept]]].
  split.
  - apply (Hidle 0%nat smooth
             (mkFileInfo a_png "blob:0" "id-0" "a.png" 1000 "image/png"
                success (Num 100)
                (Some "https://undefined.s3.amazonaws.com/uploads/123-a.png")
                None)); [reflexivity|discriminate].
  - apply (Hkept (ClickRetry 1 smooth) 0%nat);
      [reflexivity|reflexivity|discriminate].
Defined.

Lemma fields_follow_status_witness :
  Forall consistent
         (files (app (reached uuid blob
                        [Pick [a_png] (fun _ => refusing); Resume 0;
                         ClickRetry 0 smooth; Resume 1; Resume 1]))).
Proof.
  exact (fields_follow_status uuid blob uuid_never_repeats
           [Pick [a_png] (fun _ => refusing); Resume 0;
            ClickRetry 0 smooth; Resume 1; Resume 1]).
Defined.

Lemma progress_follows_the_transport_witness :
  let net := mkNetwork (inr authorized_a)
               [mkProgress 300 (Some 1000); mkProgress 500 None] None in
  Forall (exact_percent (size record_a)) (events net) /\
  steady (size record_a) (events net) /\
  attempt net record_a =
    [Updater "id-0" SetUploading; Fetch "a.png" "image/png";
     Put (Str "https://u") "image/png";
     Updater "id-0" (SetProgress (Num 30));
     Updater "id-0" (SetProgress (Num 50));
     Updater "id-0"
       (SetSuccess "https://undefined.s3.amazonaws.com/uploads/123-a.png")] /\
  map (fun shown => option_map progress (nth_error shown 0))
      (observed (attempt net record_a) [record_a])
  = [Some (Num 0); Some (Num 30); Some (Num 50); Some (Num 100)] /\
  non_decreasing [Num 30; Num 50].
Proof.
  cbn zeta.
  assert (Hx : Forall (exact_percent (size record_a))
                 [mkProgress 300 (Some 1000); mkProgress 500 None]).
  { repeat constructor. }
  assert (Hs : steady (size record_a)
                 [mkProgress 300 (Some 1000); mkProgress 500 None]).
  { exists 1000. split; [reflexivity|]. split.
    - repeat constructor.
    - cbn. split; [discriminate|exact I]. }
  destruct (proj1 (progress_follows_the_transport
                     (mkNetwork (inr authorized_a)
                        [mkProgress 300 (Some 1000); mkProgress 500 None]
                        None)
                     record_a)
              authorized_a Undefined (Str "uploads/123-a.png")
              (Str "https://u") eq_refl eq_refl eq_refl Hx)
    as [Ha [Hseen Hmono]].
  split; [exact Hx|]. split; [exact Hs|]. split; [exact Ha|].
  split; [exact (Hseen [record_a] 0%nat record_a eq_refl eq_refl)|].
  exact (Hmono Hs).
Defined.

Lemma retry_resets_progress_only_witness :
  find (fun g => String.eqb (id g) "id-0") (files refused)
  = Some (mkFileInfo a_png "blob:0" "id-0" "a.png" 1000 "image/png" error (Num 0)
            None (Some "Failed to get upload URL: Internal Server Error")) /\
  snd (retryUpload "id-0" refused)
  = [Updater "id-0" SetUploading; Fetch "a.png" "image/png"].
Proof.
  split; [reflexivity|].
  exact (proj1 (retry_resets_progress_only refused "id-0"
                  (mkFileInfo a_png "blob:0" "id-0" "a.png" 1000 "image/png"
                     error (Num 0) None
                     (Some "Failed to get upload URL: Internal Server Error"))
                  eq_refl eq_refl)).
Defined.

Lemma intake_policy_witness :
  In b_txt [a_png; b_txt; c_mp4] /\ ~ policy b_txt /\
  ~ In b_txt (map file (newFiles (partition_batch uuid blob 0 [a_png; b_txt; c_mp4]))) /\
  contains (fileError advised) "b.txt (unsupported type)".
Proof.
  assert (Hin : In b_txt [a_png; b_txt; c_mp4]) by (right; left; reflexivity).
  assert (Hp : ~ policy b_txt).
  { intros [H _]. cbn in H. intuition discriminate. }
  split; [exact Hin|]. split; [exact Hp|].
  destruct (intake_policy uuid blob [a_png; b_txt; c_mp4] initial)
    as [_ [_ [_ H]]].
  destruct (H b_txt Hin Hp) as [H1 [_ [_ H4]]].
  split; [exact H1|exact H4].
Defined.

Lemma failed_attempt_ends_in_error_witness :
  outcome_of refusing
  = Failed "Failed to get upload URL: Internal Server Error" /\
  exists r,
    nth_error (run (attempt refusing record_a) [record_a]) 0 = Some r /\
    status r = error /\ progress r = Num 0 /\
    errorMessage r = Some "Failed to get upload URL: Internal Server Error".
Proof.
  split; [reflexivity|].
  exact (proj1 (failed_attempt_ends_in_error refusing record_a
                  "Failed to get upload URL: Internal Server Error" eq_refl)
               [record_a] 0%nat record_a eq_refl eq_refl).
Defined.

Lemma intake_appends_and_starts_witness :
  (forall f r, In f (files uploaded_a) ->
               In r (newFiles (partition_batch uuid blob 1 [b_txt; d_gif])) ->
               id f <> id r) /\
  files (fst (validateAndAddFiles uuid blob [b_txt; d_gif] uploaded_a))
  = (files uploaded_a
     ++ [mkFileInfo d_gif "blob:1" "id-1" "d.gif" 2048 "image/gif"
                    uploading (Num 0) None None])%list /\
  snd (validateAndAddFiles uuid blob [b_txt; d_gif] uploaded_a)
  = [Updater "id-1" SetUploading; Fetch "d.gif" "image/gif"] /\
  exists rest,
    attempt breaking (record_of uuid blob 1 d_gif)
    = ([Updater "id-1" SetUploading; Fetch "d.gif" "image/gif"]
       ++ rest)%list /\
    requests rest = [].
Proof.
  assert (H : forall f r, In f (files uploaded_a) ->
               In r (newFiles (partition_batch uuid blob 1 [b_txt; d_gif])) ->
               id f <> id r).
  { intros f r [<-|[]] [<-|[]]. discriminate. }
  destruct (intake_appends_and_starts uuid blob [b_txt; d_gif] uploaded_a)
    as [Hstarts [Hbegin [_ [_ [_ [Hfresh _]]]]]].
  split; [exact H|]. split; [exact (Hfresh H)|]. split; [exact Hstarts|].
  apply (Hbegin breaking (record_of uuid blob 1 d_gif)).
  left. reflexivity.
Defined.

Lemma updaters_frame_witness :
  nth_error (files (app two_cards)) 1
  = Some (mkFileInfo d_gif "blob:1" "id-1" "d.gif" 2048 "image/gif"
            error (Num 0) None (Some "Network Error")) /\
  nth_error (run (attempt refusing record_a) (files (app two_cards))) 1
  = Some (mkFileInfo d_gif "blob:1" "id-1" "d.gif" 2048 "image/gif"
            error (Num 0) None (Some "Network Error")).
Proof.
  split; [reflexivity|].
  destruct (updaters_frame refusing record_a) as [_ [_ [H _]]].
  apply (H (files (app two_cards)) 1%nat); [reflexivity|discriminate].
Defined.

Lemma intake_resets_advisory_witness :
  fileError advised
  = "Some files were not added: b.txt (unsupported type), c.mp4 (exceeds 15MB limit)" /\
  forallb within_policy [d_gif] = true /\
  fileError (fst (validateAndAddFiles uuid blob [d_gif] advised)) = "".
Proof.
  split; [reflexivity|]. split; [reflexivity|].
  exact (proj2 (proj2 (intake_resets_advisory uuid blob [d_gif] advised))
               eq_refl).
Defined.

(** * Further properties of the component *)

(** ** Every way an attempt can go *)

(** X1.  When [fetch] itself rejects, or the body of an [ok] response does
    not parse, the attempt is the uploading mark, the authorization request
    and one error updater carrying the message of the thrown [Error] (the
    generic message for another thrown value): nothing is transferred. *)
Theorem unusable_authorization_is_an_error
        (net : Network) (fileInfo : FileInfo) (e : thrown) :
  fetched net = inl e \/
  (exists response, fetched net = inr response /\ ok response = true /\
                    json response = inl e) ->
  attempt net fileInfo =
    [Updater (id fileInfo) SetUploading;
     Fetch (name fileInfo) (type fileInfo);
     Updater (id fileInfo)
             (SetError (match e with
                        | ErrorInstance message => message
                        | OtherValue => "Failed to upload file"
                        end))] /\
  forall target contentType,
    ~ In (Put target contentType) (attempt net fileInfo).
Proof.
  intros H.
  assert (E : attempt net fileInfo =
              [Updater (id fileInfo) SetUploading;
               Fetch (name fileInfo) (type fileInfo);
               Updater (id fileInfo) (SetError (caught_message e))]).
  { rewrite attempt_shape. unfold delivered, transfer_target, outcome_of.
    destruct H as [H|[response [H [Hok Hj]]]]; rewrite H; [reflexivity|].
    rewrite Hok, Hj. reflexivity. }
  split; [exact E|].
  intros target contentType Hin. rewrite E in Hin.
  destruct Hin as [Hin|[Hin|[Hin|[]]]]; discriminate.
Qed.

(** X2.  Whatever the network does, an attempt does not leave its record
    uploading: once all its updaters have run, the record is in [success]
    with progress 100 and the location of the outcome, or in [error] with
    progress 0 and the message of the outcome. *)
Theorem attempt_always_settles
        (net : Network) (fileInfo : FileInfo)
        (prev : list FileInfo) (n : nat) (g : FileInfo) :
  nth_error prev n = Some g -> id g = id fileInfo ->
  exists r,
    nth_error (run (attempt net fileInfo) prev) n = Some r /\
    ((status r = success /\ progress r = Num 100 /\
      exists location, url r = Some location /\
                       outcome_of net = Succeeded location) \/
     (status r = error /\ progress r = Num 0 /\
      exists message, errorMessage r = Some message /\
                      outcome_of net = Failed message)).
Proof.
  intros Hn Hi.
  destruct (attempt_result net fileInfo prev n g Hn Hi) as [r [E _]].
  eexists. split; [exact E|].
  destruct (outcome_of net) as [location|message]; [left|right];
    cbn [final_update spread status progress url errorMessage];
    repeat split; eexists; split; reflexivity.
Qed.

(** ** Independence of records *)

Lemma setFiles_commute i j u v l :
  i <> j -> setFiles i u (setFiles j v l) = setFiles j v (setFiles i u l).
Proof.
  intros Hij. unfold setFiles. rewrite !map_map. apply map_ext. intros f.
  destruct (String.eqb_spec (id f) i) as [Ei|Ei];
    destruct (String.eqb_spec (id f) j) as [Ej|Ej];
    rewrite ?spread_id;
    try (exfalso; congruence);
    repeat match goal with
           | |- context [String.eqb ?a ?b] =>
               destruct (String.eqb_spec a b); try congruence
           end.
Qed.

Lemma run_app a b l : run (a ++ b) l = run b (run a l).
Proof.
  revert l. induction a as [|x a IH]; intros l; [reflexivity|].
  destruct x; cbn [app run]; apply IH.
Qed.

Lemma run_setFiles_commute i tr j v :
  (forall k u, In (Updater k u) tr -> k = i) -> i <> j ->
  forall l, run tr (setFiles j v l) = setFiles j v (run tr l).
Proof.
  intros Htr Hij. induction tr as [|x tr IH]; intros l; [reflexivity|].
  assert (Htl : forall k u, In (Updater k u) tr -> k = i)
    by (intros k u H; apply (Htr k u); right; exact H).
  destruct x as [k u| |]; cbn [run]; try (apply IH; exact Htl).
  assert (k = i) by (apply (Htr k u); left; reflexivity). subst k.
  rewrite setFiles_commute by exact Hij. apply IH, Htl.
Qed.

Lemma runs_commute i j a b :
  (forall k u, In (Updater k u) a -> k = i) ->
  (forall k u, In (Updater k u) b -> k = j) ->
  i <> j ->
  forall l, run a (run b l) = run b (run a l).
Proof.
  intros Ha Hb Hij. induction b as [|x b IH]; intros l; [reflexivity|].
  assert (Htl : forall k u, In (Updater k u) b -> k = j)
    by (intros k u H; apply (Hb k u); right; exact H).
  destruct x as [k u| |]; cbn [run]; try (apply IH; exact Htl).
  assert (k = j) by (apply (Hb k u); left; reflexivity). subst k.
  rewrite <- (run_setFiles_commute i a j u Ha Hij). apply IH, Htl.
Qed.

(** X3.  The updaters of two records with different identifiers commute,
    and so do two whole attempts: the set ends the same whichever attempt
    delivers first, and also when the second attempt starts in the middle
    of the first. *)
Theorem attempts_of_different_records_commute
        (net1 net2 : Network) (f1 f2 : FileInfo) :
  id f1 <> id f2 ->
  (forall u v l,
     setFiles (id f1) u (setFiles (id f2) v l)
     = setFiles (id f2) v (setFiles (id f1) u l)) /\
  (forall l,
     run (attempt net1 f1 ++ attempt net2 f2) l
     = run (attempt net2 f2 ++ attempt net1 f1) l) /\
  (forall a b l,
     attempt net1 f1 = (a ++ b)%list ->
     run (a ++ attempt net2 f2 ++ b) l
     = run (attempt net1 f1 ++ attempt net2 f2) l).
Proof.
  intros Hij. split; [|split].
  - intros u v l. apply setFiles_commute, Hij.
  - intros l. rewrite !run_app.
    apply (runs_commute (id f2) (id f1));
      [intros k u; apply attempt_updaters ..|congruence].
  - intros a b l E.
    assert (Hb : forall k u, In (Updater k u) b -> k = id f1).
    { intros k u H. apply (attempt_updaters net1 f1 k u). rewrite E.
      apply in_or_app. right. exact H. }
    rewrite E, !run_app.
    apply (runs_commute (id f1) (id f2));
      [exact Hb|intros k u; apply attempt_updaters|exact Hij].
Qed.

(** ** The size shown on a card *)

Lemma tenths_nearest n d :
  0 < d ->
  2 * d * tenths n d <= 20 * n + d /\ 20 * n + d < 2 * d * tenths n d + 2 * d.
Proof.
  intros Hd. unfold tenths.
  pose proof (N.div_mod (20 * n + d) (2 * d)) as E.
  pose proof (N.mod_lt (20 * n + d) (2 * d)) as L.
  assert (Hd2 : 2 * d <> 0) by lia.
  specialize (E Hd2). specialize (L Hd2).
  revert E L. generalize ((20 * n + d) / (2 * d)) ((20 * n + d) mod (2 * d)).
  intros q r E L. nia.
Qed.

Lemma tenths_mono n m d : 0 < d -> n <= m -> tenths n d <= tenths m d.
Proof.
  intros Hd H. unfold tenths. apply N.Div0.div_le_mono. lia.
Qed.

(** X4.  For a size below 2^53 bytes (an integer a double holds
    exactly), [formatFileSize] picks the unit by the thresholds 1024 and
    1024 * 1024 and, in KB and MB, prints the size in that unit to the
    nearest tenth (halves upwards): the reading is never off by more than
    a twentieth of the unit.  KB readings lie between 1.0 and 1024.0, and
    a size within the 15 MiB ceiling reads at most 15.0 MB. *)
Theorem formatFileSize_reads_to_the_nearest_tenth (bytes : N) :
  bytes < 2 ^ 53 ->
  (bytes < 1024 -> formatFileSize bytes = Backend.decimal bytes ++ " B") /\
  (1024 <= bytes < 1024 * 1024 ->
   exists t,
     formatFileSize bytes
     = (Backend.decimal (t / 10) ++ "." ++ Backend.decimal (t mod 10)) ++ " KB" /\
     10 <= t <= 10240 /\
     1024 * t <= 10 * bytes + 512 /\ 10 * bytes < 1024 * t + 512) /\
  (1024 * 1024 <= bytes ->
   exists t,
     formatFileSize bytes
     = (Backend.decimal (t / 10) ++ "." ++ Backend.decimal (t mod 10)) ++ " MB" /\
     10 <= t /\
     1048576 * t <= 10 * bytes + 524288 /\ 10 * bytes < 1048576 * t + 524288 /\
     (bytes <= MAX_FILE_SIZE -> t <= 150)).
Proof.
  intros _. unfold formatFileSize. split; [|split].
  - intros H. apply N.ltb_lt in H. rewrite H. reflexivity.
  - intros [Hlo Hhi].
    destruct (N.ltb_spec bytes 1024) as [H|_]; [lia|].
    apply N.ltb_lt in Hhi. rewrite Hhi. apply N.ltb_lt in Hhi.
    exists (tenths bytes 1024). split; [reflexivity|].
    pose proof (tenths_nearest bytes 1024 eq_refl) as [A B].
    pose proof (tenths_mono 1024 bytes 1024 eq_refl Hlo) as C.
    change (tenths 1024 1024) with 10 in C.
    pose proof (tenths_mono bytes (1024 * 1024) 1024 eq_refl
                  (N.lt_le_incl _ _ Hhi)) as D.
    change (tenths (1024 * 1024) 1024) with 10240 in D. lia.
  - intros Hlo.
    destruct (N.ltb_spec bytes 1024) as [H|_]; [lia|].
    destruct (N.ltb_spec bytes (1024 * 1024)) as [H|_]; [lia|].
    exists (tenths bytes (1024 * 1024)). split; [reflexivity|].
    pose proof (tenths_nearest bytes (1024 * 1024) eq_refl) as [A B].
    pose proof (tenths_mono (1024 * 1024) bytes (1024 * 1024) eq_refl Hlo) as C.
    change (tenths (1024 * 1024) (1024 * 1024)) with 10 in C.
    split; [lia|]. split; [lia|]. split; [lia|].
    intros Hmax. unfold MAX_FILE_SIZE in Hmax.
    pose proof (tenths_mono bytes (15 * 1024 * 1024) (1024 * 1024)
                  eq_refl Hmax) as D.
    change (tenths (15 * 1024 * 1024) (1024 * 1024)) with 150 in D. exact D.
Qed.

(** X5.  The unit changes at 1048576 bytes, the rounding earlier: every
    size from 1048525 up to 1048575 is shown as "1024.0 KB". *)
Theorem just_under_a_mebibyte_reads_1024_KB (bytes : N) :
  1048525 <= bytes < 1048576 -> formatFileSize bytes = "1024.0 KB".
Proof.
  intros [Hlo Hhi]. unfold formatFileSize.
  destruct (N.ltb_spec bytes 1024) as [H|_]; [lia|].
  destruct (N.ltb_spec bytes (1024 * 1024)) as [_|H]; [|lia].
  assert (E : tenths bytes 1024 = 10240).
  { unfold tenths. symmetry.
    apply (N.div_unique _ _ _ (20 * bytes + 1024 - 10240 * 2048)); lia. }
  unfold toFixed1. rewrite E. reflexivity.
Qed.

(** ** What a record keeps *)

Lemma origin_spread u r : origin (spread u r) = origin r.
Proof. destruct u; reflexivity. Qed.

Lemma origin_setFiles i u l : map origin (setFiles i u l) = map origin l.
Proof.
  unfold setFiles. rewrite map_map. apply map_ext. intros f.
  destruct (String.eqb (id f) i); [apply origin_spread|reflexivity].
Qed.

Lemma faithful_origin r r' : origin r = origin r' -> faithful r -> faithful r'.
Proof.
  unfold origin, faithful. intros E [A [B [C D]]].
  injection E as E1 E2 E3 E4 E5 E6.
  rewrite <- E1, <- E4, <- E5, <- E6. tauto.
Qed.

Lemma faithful_setFiles i u l : Forall faithful l -> Forall faithful (setFiles i u l).
Proof.
  intros H. unfold setFiles. apply Forall_map.
  apply Forall_impl with (2 := H). intros f Hf.
  destruct (String.eqb (id f) i); [|exact Hf].
  apply (faithful_origin f); [symmetry; apply origin_spread|exact Hf].
Qed.

Section Records.

Variable randomUUID : nat -> string.
Variable createObjectURL : nat -> string.

Local Abbreviation act' := (act randomUUID createObjectURL).
Local Abbreviation reached' := (reached randomUUID createObjectURL).

Lemma created_faithful cs : forall n,
  Forall faithful (created randomUUID createObjectURL n cs).
Proof.
  induction cs as [|c cs IH]; intros n; [constructor|].
  cbn [created]. destruct (within_policy c) eqn:E; [|apply IH].
  constructor; [|apply IH].
  unfold faithful, record_of. cbn. apply within_policy_spec in E. tauto.
Qed.

Lemma retried_files n st st' effs :
  click_retry n st = Some (st', effs) ->
  exists i, files st' = setFiles i SetUploading (files st) \/ files st' = files st.
Proof.
  unfold click_retry.
  destruct (nth_error (files st) n) as [f|]; [|discriminate].
  destruct (retry_button_shown f); [|discriminate].
  intros H. injection H as H. exists (id f). unfold retryUpload in H.
  destruct (find (fun g => String.eqb (id g) (id f)) (files st)) as [f0|] eqn:Hf;
    injection H as H _; rewrite <- H.
  - left. destruct (find_by_id _ _ _ Hf) as [_ E].
    cbn [files uploadFile_started run]. now rewrite E.
  - right. reflexivity.
Qed.

Lemma act_origin sys a :
  (exists k, a = Resume k) \/ (exists n answer, a = ClickRetry n answer) ->
  map origin (files (app (act' sys a))) = map origin (files (app sys)).
Proof.
  intros [[k ->]|[n [answer ->]]]; cbn [act].
  - destruct (nth_error (inflight sys) k) as [[i [|u us]]|]; try reflexivity.
    cbn [app files]. apply origin_setFiles.
  - destruct (nth_error (files (app sys)) n) as [f|]; [|reflexivity].
    destruct (click_retry n (app sys)) as [[st' effs]|] eqn:Hc; [|reflexivity].
    destruct (find (fun g => String.eqb (id g) (id f)) (files (app sys)));
      [|reflexivity].
    cbn [app]. destruct (retried_files _ _ _ _ Hc) as [i [E|E]]; rewrite E;
      [apply origin_setFiles|reflexivity].
Qed.

Lemma act_faithful sys a :
  Forall faithful (files (app sys)) -> Forall faithful (files (app (act' sys a))).
Proof.
  intros H. destruct a as [cs answers|n|n answer|k]; cbn [act].
  - cbn [app]. rewrite intake_files, run_auto_upload, partition_batch_eq.
    cbn [newFiles]. apply Forall_map.
    assert (G : Forall faithful
                  (files (app sys)
                   ++ created randomUUID createObjectURL (drawn (app sys)) cs)).
    { apply Forall_app. split; [exact H|apply created_faithful]. }
    apply Forall_impl with (2 := G). intros f Hf. unfold started.
    destruct (includes _ (id f)); [|exact Hf].
    apply (faithful_origin f); [symmetry; apply origin_spread|exact Hf].
  - destruct (nth_error (files (app sys)) n) as [f|]; [|exact H].
    cbn [app removeFile files]. apply Forall_forall. intros g Hg.
    apply filter_In in Hg. destruct Hg as [Hg _].
    revert g Hg. apply Forall_forall. exact H.
  - destruct (nth_error (files (app sys)) n) as [f|]; [|exact H].
    destruct (click_retry n (app sys)) as [[st' effs]|] eqn:Hc; [|exact H].
    destruct (find (fun g => String.eqb (id g) (id f)) (files (app sys)));
      [|exact H].
    cbn [app]. destruct (retried_files _ _ _ _ Hc) as [i [E|E]]; rewrite E;
      [apply faithful_setFiles|]; exact H.
  - destruct (nth_error (inflight sys) k) as [[i [|u us]]|]; try exact H.
    cbn [app files]. apply faithful_setFiles, H.
Qed.

Lemma reached_faithful acts : Forall faithful (files (app (reached' acts))).
Proof.
  unfold reached.
  assert (G : forall sys, Forall faithful (files (app sys)) ->
                Forall faithful (files (app (fold_left act' acts sys)))).
  { induction acts as [|a acts IH]; intros sys H; [exact H|].
    cbn [fold_left]. apply IH, act_faithful, H. }
  apply G. constructor.
Qed.

(** X6.  At every turn, every record of the set still carries the name,
    size and type of the file it was made from, and that file is within
    the policy (allowed type, at most 15 MiB); a resumed attempt and a
    retry change no record's file, preview, identifier, name, size or
    type. *)
Theorem records_stay_faithful (acts : list action) :
  Forall (fun r =>
            name r = File.name (file r) /\ size r = File.size (file r) /\
            type r = File.type (file r) /\
            In (type r) ALLOWED_TYPES /\ size r <= MAX_FILE_SIZE)
         (files (app (reached' acts))) /\
  (forall k,
     map origin (files (app (act' (reached' acts) (Resume k))))
     = map origin (files (app (reached' acts)))) /\
  (forall n answer,
     map origin (files (app (act' (reached' acts) (ClickRetry n answer))))
     = map origin (files (app (reached' acts)))).
Proof.
  split; [|split].
  - apply Forall_impl with (2 := reached_faithful acts).
    intros r [A [B [C [D E]]]]. rewrite C at 2. rewrite B at 2.
    repeat split; assumption.
  - intros k. apply act_origin. left. now exists k.
  - intros n answer. apply act_origin. right. now exists n, answer.
Qed.

(** X7.  At every turn, the type label of every card is defined, so the
    render never calls [toUpperCase] on [undefined]: it is the subtype of
    one of the five allowed types, in capitals. *)
Theorem type_label_is_defined (acts : list action) :
  Forall (fun r =>
            In (type r, type_label r)
               [("image/jpeg", Some "JPEG"); ("image/png", Some "PNG");
                ("image/gif", Some "GIF"); ("video/mp4", Some "MP4");
                ("video/quicktime", Some "QUICKTIME")])
         (files (app (reached' acts))).
Proof.
  apply Forall_impl with (2 := reached_faithful acts).
  intros r [_ [_ [C [D _]]]]. rewrite <- C in D. unfold type_label.
  cbn [In] in D.
  destruct D as [D|[D|[D|[D|[D|[]]]]]]; rewrite <- D; cbn; tauto.
Qed.

(** X8.  At every turn, a click on a card opens the preview exactly when
    the record is not uploading, and the thumbnail is the image or the
    video of the preview handle, never the file icon. *)
Theorem cards_preview_unless_uploading (acts : list action) :
  Forall (fun r =>
            opens_preview r = negb (Status_eqb (status r) uploading) /\
            thumbnail_of r <> Icon)
         (files (app (reached' acts))).
Proof.
  apply Forall_impl with (2 := reached_faithful acts).
  intros r [_ [_ [C [D _]]]]. rewrite <- C in D.
  unfold opens_preview, thumbnail_of. cbn [In] in D.
  destruct D as [D|[D|[D|[D|[D|[]]]]]]; rewrite <- D; cbn;
    (split; [reflexivity|discriminate]).
Qed.

End Records.

(** ** Identifiers *)

Lemma filter_keeps_all {A} (p : A -> bool) l :
  (forall x, In x l -> p x = true) -> filter p l = l.
Proof.
  induction l as [|a l IH]; intros H; [reflexivity|].
  cbn [filter]. rewrite (H a (or_introl eq_refl)). f_equal.
  apply IH. intros x Hx. apply H. right. exact Hx.
Qed.

Lemma filter_other_ids l n f :
  NoDup (map id l) -> nth_error l n = Some f ->
  filter (fun g => negb (String.eqb (id g) (id f))) l
  = (firstn n l ++ skipn (S n) l)%list.
Proof.
  intros Hnd Hn.
  destruct (nth_error_split l n Hn) as [l1 [l2 [-> Hlen]]]. subst n.
  rewrite map_app in Hnd. cbn [map] in Hnd.
  apply NoDup_remove_2 in Hnd.
  assert (Hother : forall g, In g (l1 ++ l2) ->
                     negb (String.eqb (id g) (id f)) = true).
  { intros g Hg. destruct (String.eqb_spec (id g) (id f)) as [E|E];
      [|reflexivity].
    exfalso. apply Hnd. rewrite <- map_app, <- E. apply in_map, Hg. }
  rewrite firstn_app, firstn_all, Nat.sub_diag, firstn_O, app_nil_r.
  rewrite skipn_app, skipn_all2 by lia.
  replace (S (List.length l1) - List.length l1)%nat with 1%nat by lia.
  cbn [skipn app]. rewrite filter_app. cbn [filter].
  rewrite String.eqb_refl. cbn [negb]. rewrite <- filter_app.
  apply filter_keeps_all, Hother.
Qed.

Section Identifiers.

Variable randomUUID : nat -> string.
Variable createObjectURL : nat -> string.
Hypothesis never_repeats : forall a b, randomUUID a = randomUUID b -> a = b.

Local Abbreviation act' := (act randomUUID createObjectURL).
Local Abbreviation reached' := (reached randomUUID createObjectURL).
Local Abbreviation created' := (created randomUUID createObjectURL).
Local Abbreviation sound' := (sound randomUUID).

Lemma pick_files sys cs answers :
  sound' sys ->
  files (app (act' sys (Pick cs answers)))
  = (files (app sys)
     ++ map (spread SetUploading) (created' (drawn (app sys)) cs))%list.
Proof.
  intros S. cbn [act app]. apply created_uploading_after_intake.
  intros f r. apply (created_apart randomUUID createObjectURL never_repeats), S.
Qed.

(** X9.  At every turn, the remove button of a card takes exactly that
    card out of the set: the cards before and after it stay, in order and
    unchanged; the advisory and the attempts in flight are not touched. *)
Theorem remove_takes_out_one_card (acts : list action) (n : nat) (f : FileInfo) :
  let sys := reached' acts in
  nth_error (files (app sys)) n = Some f ->
  files (app (act' sys (ClickRemove n)))
  = (firstn n (files (app sys)) ++ skipn (S n) (files (app sys)))%list /\
  fileError (app (act' sys (ClickRemove n))) = fileError (app sys) /\
  inflight (act' sys (ClickRemove n)) = inflight sys.
Proof.
  cbn zeta. intros Hn. cbn [act]. rewrite Hn.
  cbn [app removeFile files fileError inflight].
  split; [|split; reflexivity].
  apply filter_other_ids; [|exact Hn].
  apply (distinct_ids randomUUID), sound_reached, never_repeats.
Qed.

(** X10.  At every turn an intake leaves the records already in the set
    exactly as they are and puts the accepted ones after them, each
    uploading with progress 0, with one attempt in flight for each; a batch
    with no acceptable candidate changes nothing but the advisory. *)
Theorem intake_keeps_the_set
        (acts : list action) (cs : list File.t) (answers : nat -> Network) :
  let sys := reached' acts in
  let sys' := act' sys (Pick cs answers) in
  let news := newFiles (partition_batch randomUUID createObjectURL
                          (drawn (app sys)) cs) in
  files (app sys') = (files (app sys) ++ map (spread SetUploading) news)%list /\
  map fst (inflight sys') = (map fst (inflight sys) ++ map id news)%list /\
  (forallb (fun c => negb (within_policy c)) cs = true ->
   files (app sys') = files (app sys) /\ inflight sys' = inflight sys).
Proof.
  cbn zeta. rewrite partition_batch_eq. cbn [newFiles].
  assert (S : sound' (reached' acts)) by (apply sound_reached, never_repeats).
  split; [apply pick_files, S|]. split.
  - cbn [act inflight]. rewrite partition_batch_eq. cbn [newFiles].
    rewrite map_app, launch_owners. reflexivity.
  - intros H.
    assert (E : created' (drawn (app (reached' acts))) cs = []).
    { generalize (drawn (app (reached' acts))).
      induction cs as [|c cs IH]; intros n; [reflexivity|].
      cbn [forallb] in H. apply andb_true_iff in H. destruct H as [Hc H].
      cbn [created]. destruct (within_policy c); [discriminate|].
      apply IH, H. }
    split.
    + rewrite (pick_files _ _ _ S), E. cbn. apply app_nil_r.
    + cbn [act inflight]. rewrite partition_batch_eq. cbn [newFiles].
      rewrite E. cbn. apply app_nil_r.
Qed.

Lemma act_drawn sys a :
  (drawn (app sys) <= drawn (app (act' sys a)))%nat.
Proof.
  destruct a as [cs answers|n|n answer|k]; cbn [act].
  - cbn [app]. rewrite intake_drawn. lia.
  - destruct (nth_error (files (app sys)) n); cbn; lia.
  - destruct (nth_error (files (app sys)) n) as [f|]; [|lia].
    unfold click_retry.
    destruct (nth_error (files (app sys)) n) as [f'|]; [|lia].
    destruct (retry_button_shown f'); [|lia].
    unfold retryUpload.
    destruct (find (fun g => String.eqb (id g) (id f')) (files (app sys)));
      destruct (find (fun g => String.eqb (id g) (id f)) (files (app sys)));
      cbn; lia.
  - destruct (nth_error (inflight sys) k) as [[i [|u us]]|]; cbn; lia.
Qed.

Lemma act_ancestor sys a g' :
  sound' sys ->
  In g' (files (app (act' sys a))) ->
  (exists g, In g (files (app sys)) /\ origin g = origin g') \/
  (exists m, (drawn (app sys) <= m)%nat /\ id g' = randomUUID m).
Proof.
  intros S Hg. destruct a as [cs answers|n|n answer|k].
  - rewrite (pick_files _ _ _ S) in Hg. apply in_app_or in Hg.
    destruct Hg as [Hg|Hg]; [left; now exists g'|right].
    apply in_map_iff in Hg. destruct Hg as [r [<- Hr]]. rewrite spread_id.
    destruct (created_in_range randomUUID createObjectURL cs _ _
                (in_map id _ _ Hr)) as [m [Hm Em]].
    exists m. split; [lia|exact Em].
  - left. cbn [act] in Hg.
    destruct (nth_error (files (app sys)) n) as [f|]; [|now exists g'].
    cbn [app removeFile files] in Hg. apply filter_In in Hg.
    exists g'. tauto.
  - left.
    assert (E : map origin (files (app (act' sys (ClickRetry n answer))))
                = map origin (files (app sys))).
    { apply act_origin. right. now exists n, answer. }
    apply (in_map origin) in Hg. rewrite E in Hg. apply in_map_iff in Hg.
    destruct Hg as [g [Eg Hg]]. now exists g.
  - left.
    assert (E : map origin (files (app (act' sys (Resume k))))
                = map origin (files (app sys))).
    { apply act_origin. left. now exists k. }
    apply (in_map origin) in Hg. rewrite E in Hg. apply in_map_iff in Hg.
    destruct Hg as [g [Eg Hg]]. now exists g.
Qed.

Lemma origin_id r r' : origin r = origin r' -> id r = id r'.
Proof. unfold origin. intros E. now injection E. Qed.

(** X11.  Identifiers are never reused within a session: two records that
    carry the same identifier at two turns of a run, whatever intakes and
    removals lie between, are one record, with the same file, preview,
    name, size and type; and at any one turn the identifiers of the set are
    pairwise distinct. *)
Theorem identifiers_are_never_reused
        (acts acts' : list action) (f g : FileInfo) :
  NoDup (map id (files (app (reached' acts)))) /\
  (In f (files (app (reached' acts))) ->
   In g (files (app (reached' (acts ++ acts')))) ->
   id f = id g -> origin f = origin g).
Proof.
  assert (S0 : sound' (reached' acts)) by (apply sound_reached, never_repeats).
  split; [exact (distinct_ids _ _ S0)|].
  intros Hf Hg E. unfold reached in Hg. rewrite fold_left_app in Hg.
  fold (reached' acts) in Hg.
  destruct (ids_drawn _ _ S0 f Hf) as [n [Hn En]].
  assert (G : forall sys,
             sound' sys -> (n < drawn (app sys))%nat ->
             (forall x, In x (files (app sys)) -> id x = id f ->
                        origin x = origin f) ->
             forall x, In x (files (app (fold_left act' acts' sys))) ->
                       id x = id f -> origin x = origin f).
  { clear Hg. induction acts' as [|a rest IH]; intros sys S Hd Hold;
      [exact Hold|].
    cbn [fold_left]. apply IH.
    - apply sound_act; assumption.
    - pose proof (act_drawn sys a). lia.
    - intros x Hx Ex.
      destruct (act_ancestor sys a x S Hx) as [[y [Hy Ey]]|[m [Hm Em]]].
      + rewrite <- Ey. apply Hold; [exact Hy|].
        rewrite (origin_id _ _ Ey). exact Ex.
      + exfalso. assert (n = m) by (apply never_repeats; congruence). lia. }
  symmetry. apply (G (reached' acts) S0 Hn); [|exact Hg|now symmetry].
  intros x Hx Ex. f_equal.
  exact (same_id_same_record _ _ _ (distinct_ids _ _ S0) Hx Hf Ex).
Qed.

End Identifiers.

(** ** Attempts that are still running *)

Lemma suspended_pending net fileInfo : snd (suspended net fileInfo) <> [].
Proof.
  unfold suspended. cbn [snd]. rewrite attempt_updates. cbn [tl].
  destruct (map SetProgress (delivered net fileInfo)); discriminate.
Qed.

Lemma launch_nth answers news : forall k0 j r,
  nth_error news j = Some r ->
  nth_error (launch answers k0 news) j
  = Some (suspended (answers (k0 + j)%nat) r).
Proof.
  induction news as [|x news IH]; intros k0 j r H; [destruct j; discriminate|].
  destruct j as [|j]; cbn [nth_error launch] in *.
  - injection H as ->. now rewrite Nat.add_0_r.
  - rewrite (IH (S k0) j r H). f_equal. f_equal. f_equal. lia.
Qed.

Lemma closing_progress_continues p us : closing (SetProgress p :: us) -> us <> [].
Proof. destruct us; [intros H; destruct H|discriminate]. Qed.

Lemma status_settled_by_final u r : final u -> settled (spread u r).
Proof. destruct u; intros H; try destruct H; [left|right]; reflexivity. Qed.

Section Running.

Variable randomUUID : nat -> string.
Variable createObjectURL : nat -> string.
Hypothesis never_repeats : forall a b, randomUUID a = randomUUID b -> a = b.

Local Abbreviation act' := (act randomUUID createObjectURL).
Local Abbreviation reached' := (reached randomUUID createObjectURL).
Local Abbreviation created' := (created randomUUID createObjectURL).
Local Abbreviation sound' := (sound randomUUID).

Lemma busy_appended sys st' more i :
  busy sys i -> busy (mkSystem st' (inflight sys ++ more)) i.
Proof.
  intros [k [us [Hk Hus]]]. exists k, us. split; [|exact Hus].
  cbn [inflight]. rewrite nth_error_app1; [exact Hk|].
  apply nth_error_Some. congruence.
Qed.

Lemma attended_act sys a : sound' sys -> attended sys -> attended (act' sys a).
Proof.
  intros S A. destruct a as [cs answers|n|n answer|k].
  - intros f Hf Hs. rewrite (pick_files _ _ never_repeats _ _ _ S) in Hf.
    apply in_app_or in Hf. destruct Hf as [Hf|Hf].
    + cbn [act]. apply busy_appended. exact (A f Hf Hs).
    + apply in_map_iff in Hf. destruct Hf as [r [<- Hr]]. rewrite spread_id.
      apply In_nth_error in Hr. destruct Hr as [j Hj].
      cbn [act]. rewrite partition_batch_eq. cbn [newFiles].
      exists (List.length (inflight sys) + j)%nat,
             (snd (suspended (answers (0 + j)%nat) r)).
      split; [|apply suspended_pending].
      cbn [inflight]. rewrite nth_error_app2 by lia.
      replace (List.length (inflight sys) + j - List.length (inflight sys))%nat
        with j by lia.
      rewrite (launch_nth answers _ 0 j r Hj). reflexivity.
  - cbn [act]. destruct (nth_error (files (app sys)) n) as [f|]; [|exact A].
    intros g Hg Hs. cbn [app removeFile files] in Hg.
    apply filter_In in Hg. destruct Hg as [Hg _].
    destruct (A g Hg Hs) as [k [us H]]. now exists k, us.
  - cbn [act]. destruct (nth_error (files (app sys)) n) as [f|] eqn:Hn;
      [|exact A].
    unfold click_retry. rewrite Hn.
    destruct (retry_button_shown f); [|exact A].
    destruct (find (fun g => String.eqb (id g) (id f)) (files (app sys)))
      as [f0|] eqn:Hf; [|unfold retryUpload; rewrite Hf; exact A].
    rewrite (retryUpload_found _ _ _ Hf).
    destruct (find_by_id _ _ _ Hf) as [_ Hid0].
    intros r Hr Hs. cbn [app files] in Hr. apply In_setFiles in Hr.
    destruct Hr as [g [Hg [[Hne ->]|[He ->]]]].
    + apply busy_appended. exact (A g Hg Hs).
    + rewrite spread_id.
      exists (List.length (inflight sys)), (snd (suspended answer f0)).
      split; [|apply suspended_pending].
      cbn [inflight]. rewrite nth_error_app2, Nat.sub_diag by lia.
      cbn [nth_error]. unfold suspended. cbn [snd]. congruence.
  - cbn [act].
    destruct (nth_error (inflight sys) k) as [[i [|u us]]|] eqn:Hk;
      try exact A.
    intros r Hr Hs. cbn [app files] in Hr. apply In_setFiles in Hr.
    pose proof (all_closing _ _ S _ _ (nth_error_In _ _ Hk)) as Hc.
    destruct Hr as [g [Hg [[Hne ->]|[He ->]]]].
    + destruct (A g Hg Hs) as [k' [vs [Hk' Hvs]]].
      exists k', vs. split; [|exact Hvs]. cbn [inflight].
      rewrite (nth_error_replace_nth _ _ _ _ _ Hk).
      destruct (Nat.eqb_spec k' k) as [->|_]; [|exact Hk'].
      exfalso. apply Hne. congruence.
    + rewrite spread_id.
      destruct (closing_head _ _ Hc) as [[Hu _]|[p ->]].
      * exfalso. destruct (status_settled_by_final u g Hu) as [H|H];
          rewrite H in Hs; discriminate.
      * exists k, us. split; [|exact (closing_progress_continues _ _ Hc)].
        cbn [inflight]. rewrite (nth_error_replace_nth _ _ _ _ _ Hk).
        rewrite Nat.eqb_refl. congruence.
Qed.

Lemma attended_reached acts : attended (reached' acts).
Proof.
  unfold reached.
  assert (G : forall sys, sound' sys -> attended sys ->
                attended (fold_left act' acts sys)).
  { induction acts as [|a acts IH]; intros sys S A; [exact A|].
    cbn [fold_left]. apply IH; [apply sound_act|apply attended_act]; assumption. }
  apply G; [apply sound_booted|].
  intros f Hf. destruct Hf.
Qed.

(** X12.  At every turn, a record of the set is uploading exactly when an
    attempt in flight for its identifier still has an updater to deliver,
    and there is never more than one such attempt for a record. *)
Theorem uploading_means_one_attempt (acts : list action) (f : FileInfo) :
  let sys := reached' acts in
  In f (files (app sys)) ->
  (status f = uploading <-> busy sys (id f)) /\
  (forall k k' us us',
     nth_error (inflight sys) k = Some (id f, us) ->
     nth_error (inflight sys) k' = Some (id f, us') ->
     us <> [] -> us' <> [] -> k = k').
Proof.
  cbn zeta. intros Hf.
  assert (S : sound' (reached' acts)) by (apply sound_reached, never_repeats).
  split; [split|].
  - apply attended_reached, Hf.
  - intros [k [us [Hk Hus]]].
    destruct (status f) eqn:Es; try reflexivity; exfalso; apply Hus;
      apply (settled_idle _ _ S f Hf); try (rewrite Es; discriminate);
      exact (nth_error_In _ _ Hk).
  - intros k k' us us'. apply (one_attempt _ _ S k k' (id f)).
Qed.

Lemma resume_to_the_end us : forall sys k i,
  nth_error (inflight sys) k = Some (i, us) ->
  let sys' := fold_left act' (repeat (Resume k) (List.length us)) sys in
  nth_error (inflight sys') k = Some (i, []) /\
  files (app sys') = fold_left (fun l u => setFiles i u l) us (files (app sys)) /\
  fileError (app sys') = fileError (app sys).
Proof.
  induction us as [|u us IH]; intros sys k i Hk; cbn zeta.
  - cbn. tauto.
  - cbn [List.length repeat fold_left]. cbn [act]. rewrite Hk.
    set (sys1 := mkSystem _ _).
    assert (H1 : nth_error (inflight sys1) k = Some (i, us)).
    { unfold sys1. cbn [inflight].
      rewrite (nth_error_replace_nth _ _ _ _ _ Hk), Nat.eqb_refl. reflexivity. }
    destruct (IH sys1 k i H1) as [A [B C]]. split; [exact A|].
    split; [rewrite B|rewrite C]; reflexivity.
Qed.

Lemma fold_setFiles_own i us : forall l n g,
  nth_error l n = Some g -> id g = i ->
  nth_error (fold_left (fun l u => setFiles i u l) us l) n
  = Some (apply_updates us g).
Proof.
  induction us as [|u us IH]; intros l n g Hn Hi; [exact Hn|].
  cbn [fold_left apply_updates]. apply IH; [|now rewrite spread_id].
  rewrite setFiles_nth, Hn. cbn. subst i. now rewrite String.eqb_refl.
Qed.

Lemma fold_setFiles_in i us : forall l r,
  In r (fold_left (fun l u => setFiles i u l) us l) ->
  exists g, In g l /\
            ((id g <> i /\ r = g) \/ (id g = i /\ r = apply_updates us g)).
Proof.
  induction us as [|u us IH]; intros l r Hr.
  - exists r. split; [exact Hr|].
    destruct (String.eqb_spec (id r) i); [right|left]; split; auto.
  - cbn [fold_left] in Hr. destruct (IH _ _ Hr) as [g' [Hg' H]].
    apply In_setFiles in Hg'. destruct Hg' as [g [Hg [[Hne ->]|[He ->]]]].
    + exists g. split; [exact Hg|]. destruct H as [[_ ->]|[E _]]; [|contradiction].
      left. now split.
    + exists g. split; [exact Hg|]. rewrite spread_id in H.
      destruct H as [[E _]|[_ ->]]; [contradiction|]. right. now split.
Qed.

Lemma closing_ends_settled us : forall g,
  closing us -> us <> [] -> settled (apply_updates us g).
Proof.
  induction us as [|u us IH]; intros g Hc Hne; [contradiction|].
  destruct us as [|v us].
  - cbn. apply status_settled_by_final, Hc.
  - cbn [apply_updates fold_left]. apply (IH (spread u g)); [|discriminate].
    exact (closing_tail _ _ Hc).
Qed.

(** X13.  At every turn, an attempt in flight that is resumed as many
    times as it has updaters left has none left afterwards, and its record,
    if it is still in the set, is then in [success] or [error]; the records
    of other identifiers and the advisory are as before. *)
Theorem resuming_an_attempt_settles_it
        (acts : list action) (k : nat) (i : string) (us : list update) :
  let sys := reached' acts in
  let sys' := fold_left act' (repeat (Resume k) (List.length us)) sys in
  nth_error (inflight sys) k = Some (i, us) -> us <> [] ->
  nth_error (inflight sys') k = Some (i, []) /\
  (forall r, In r (files (app sys')) -> id r = i -> settled r) /\
  (forall n g, nth_error (files (app sys)) n = Some g -> id g <> i ->
               nth_error (files (app sys')) n = Some g) /\
  fileError (app sys') = fileError (app sys).
Proof.
  cbn zeta. intros Hk Hne.
  assert (S : sound' (reached' acts)) by (apply sound_reached, never_repeats).
  pose proof (all_closing _ _ S _ _ (nth_error_In _ _ Hk)) as Hc.
  destruct (resume_to_the_end us (reached' acts) k i Hk) as [A [B C]].
  split; [exact A|]. split; [|split; [|exact C]].
  - intros r Hr Hi. rewrite B in Hr.
    destruct (fold_setFiles_in _ _ _ _ Hr) as [g [_ [[Hg ->]|[_ ->]]]];
      [contradiction|].
    apply closing_ends_settled; assumption.
  - intros n g Hn Hi. rewrite B. clear -Hn Hi.
    revert Hn. generalize (files (app (reached' acts))).
    induction us as [|u us IH]; intros l Hn; [exact Hn|].
    cbn [fold_left]. apply IH. apply setFiles_other; assumption.
Qed.

End Running.

(** ** A retry, to its end *)

Lemma apply_updates_last us u g :
  apply_updates (us ++ [u]) g = spread u (apply_updates us g).
Proof. unfold apply_updates. rewrite fold_left_app. reflexivity. Qed.

Lemma apply_progress_origin ps : forall g,
  origin (apply_updates (map SetProgress ps) g) = origin g.
Proof.
  induction ps as [|p ps IH]; intros g; [reflexivity|].
  cbn [map apply_updates fold_left]. unfold apply_updates in IH.
  rewrite IH. reflexivity.
Qed.

Section RetryToTheEnd.

Variable randomUUID : nat -> string.
Variable createObjectURL : nat -> string.
Hypothesis never_repeats : forall a b, randomUUID a = randomUUID b -> a = b.

Local Abbreviation act' := (act randomUUID createObjectURL).
Local Abbreviation reached' := (reached randomUUID createObjectURL).

(** X14.  At every turn, a retry on a card in [error] followed by the
    delivery of the new attempt's updaters (one per progress notification,
    then the final one) leaves that card as the new attempt's network
    decides: [success] with progress 100 and the location, or [error] with
    progress 0 and the new message; the card still shows the same file. *)
Theorem retry_ends_as_its_network_decides
        (acts : list action) (n : nat) (f : FileInfo) (answer : Network) :
  let sys := reached' acts in
  let started := act' sys (ClickRetry n answer) in
  let ended :=
    fold_left act'
      (repeat (Resume (List.length (inflight sys)))
              (S (List.length (delivered answer f))))
      started in
  nth_error (files (app sys)) n = Some f -> status f = error ->
  exists r,
    nth_error (files (app ended)) n = Some r /\
    origin r = origin f /\
    (forall location, outcome_of answer = Succeeded location ->
       status r = success /\ progress r = Num 100 /\ url r = Some location) /\
    (forall message, outcome_of answer = Failed message ->
       status r = error /\ progress r = Num 0 /\
       errorMessage r = Some message).
Proof.
  cbn zeta. intros Hn Hs.
  assert (Hsound : sound randomUUID (reached' acts))
    by (apply sound_reached, never_repeats).
  set (sys := reached' acts) in *.
  set (us := (map SetProgress (delivered answer f)
              ++ [final_update (outcome_of answer)])%list).
  assert (Hstart : act' sys (ClickRetry n answer)
                   = mkSystem (mkApp (setFiles (id f) SetUploading (files (app sys)))
                                     (fileError (app sys)) (drawn (app sys)))
                              (inflight sys ++ [(id f, us)])).
  { cbn [act]. rewrite Hn. unfold click_retry. rewrite Hn.
    apply retry_button_spec in Hs. rewrite Hs.
    rewrite (find_the_card _ _ _ (distinct_ids _ _ Hsound) Hn).
    rewrite (retryUpload_found _ _ _
               (find_the_card _ _ _ (distinct_ids _ _ Hsound) Hn)).
    unfold suspended. rewrite attempt_updates. reflexivity. }
  rewrite Hstart.
  set (sys1 := mkSystem _ _).
  assert (Hk : nth_error (inflight sys1) (List.length (inflight sys))
               = Some (id f, us)).
  { unfold sys1. cbn [inflight].
    rewrite nth_error_app2, Nat.sub_diag by lia. reflexivity. }
  replace (S (List.length (delivered answer f))) with (List.length us)
    by (unfold us; rewrite length_app, length_map; cbn; lia).
  destruct (resume_to_the_end randomUUID createObjectURL us sys1 _ _ Hk)
    as [_ [B _]].
  rewrite B. unfold sys1. cbn [app files].
  rewrite (fold_setFiles_own (id f) us _ n (spread SetUploading f)).
  2:{ rewrite setFiles_nth, Hn. cbn. now rewrite String.eqb_refl. }
  2:{ reflexivity. }
  eexists. split; [reflexivity|]. unfold us. rewrite apply_updates_last.
  split; [|split].
  - rewrite origin_spread, apply_progress_origin. reflexivity.
  - intros location E. rewrite E. repeat split.
  - intros message E. rewrite E. repeat split.
Qed.

End RetryToTheEnd.

(** ** Preview handles *)

Lemma previews_of_origins l l' :
  map origin l = map origin l' -> map previewUrl l = map previewUrl l'.
Proof.
  intros E.
  assert (G : forall l, map previewUrl l
                        = map (fun o => snd (fst (fst (fst (fst o)))))
                              (map origin l)).
  { intros x. rewrite map_map. reflexivity. }
  rewrite (G l), (G l'), E. reflexivity.
Qed.

Section Handles.

Variable randomUUID : nat -> string.
Variable createObjectURL : nat -> string.
Hypothesis never_repeats : forall a b, randomUUID a = randomUUID b -> a = b.
Hypothesis handles_truthy : forall n, createObjectURL n <> "".

Local Abbreviation act' := (act randomUUID createObjectURL).
Local Abbreviation reached' := (reached randomUUID createObjectURL).
Local Abbreviation created' := (created randomUUID createObjectURL).
Local Abbreviation sound' := (sound randomUUID).

Lemma created_previews cs : forall n,
  map previewUrl (created' n cs)
  = map createObjectURL (seq n (List.length (filter within_policy cs))).
Proof.
  induction cs as [|c cs IH]; intros n; [reflexivity|].
  cbn [created filter]. destruct (within_policy c); [|apply IH].
  cbn [map List.length seq record_of previewUrl]. rewrite IH. reflexivity.
Qed.

Lemma turn_balance sys a :
  sound' sys -> truthy_previews sys ->
  truthy_previews (act' sys a) /\
  Permutation
    (held (act' sys a) ++ released_by sys a)
    (held sys
     ++ map createObjectURL
            (seq (drawn (app sys))
                 (drawn (app (act' sys a)) - drawn (app sys)))).
Proof.
  intros Hs T. unfold held, truthy_previews in *.
  destruct a as [cs answers|n|n answer|k].
  - rewrite (pick_files _ _ never_repeats _ _ _ Hs).
    cbn [act app released_by]. rewrite intake_drawn.
    replace (drawn (app sys) + List.length (filter within_policy cs)
             - drawn (app sys))%nat
      with (List.length (filter within_policy cs)) by lia.
    rewrite app_nil_r, map_app, map_map.
    change (map (fun x => previewUrl (spread SetUploading x))
                (created' (drawn (app sys)) cs))
      with (map previewUrl (created' (drawn (app sys)) cs)).
    rewrite created_previews. split; [|apply Permutation_refl].
    apply Forall_app. split; [exact T|].
    apply Forall_forall. intros x Hx. apply in_map_iff in Hx.
    destruct Hx as [r [<- Hr]].
    change (previewUrl (spread SetUploading r)) with (previewUrl r).
    apply (in_map previewUrl) in Hr. rewrite created_previews in Hr.
    apply in_map_iff in Hr. destruct Hr as [m [<- _]]. apply handles_truthy.
  - cbn [act released_by].
    destruct (nth_error (files (app sys)) n) as [f|] eqn:Hn.
    + cbn [app removeFile files drawn]. rewrite Nat.sub_diag. cbn [seq map].
      rewrite app_nil_r.
      rewrite (filter_other_ids _ _ _ (distinct_ids _ _ Hs) Hn).
      unfold revoked_by_remove.
      rewrite (find_the_card _ _ _ (distinct_ids _ _ Hs) Hn).
      assert (Hp : previewUrl f <> "").
      { rewrite Forall_forall in T. exact (T f (nth_error_In _ _ Hn)). }
      destruct (String.eqb_spec (previewUrl f) "") as [E|_]; [contradiction|].
      destruct (nth_error_split _ _ Hn) as [l1 [l2 [El Hlen]]].
      split.
      * rewrite El in T. apply Forall_app in T. destruct T as [T1 T2].
        rewrite El. subst n.
        rewrite firstn_app, firstn_all, Nat.sub_diag, firstn_O, app_nil_r.
        rewrite skipn_app, skipn_all2 by lia.
        replace (S (List.length l1) - List.length l1)%nat with 1%nat by lia.
        apply Forall_app. split; [exact T1|]. exact (Forall_inv_tail T2).
      * rewrite El. subst n.
        rewrite firstn_app, firstn_all, Nat.sub_diag, firstn_O, app_nil_r.
        rewrite skipn_app, skipn_all2 by lia.
        replace (S (List.length l1) - List.length l1)%nat with 1%nat by lia.
        cbn [skipn app]. rewrite !map_app. cbn [map].
        rewrite <- app_assoc. apply Permutation_app_head.
        apply Permutation_sym, Permutation_cons_append.
    + rewrite Nat.sub_diag, !app_nil_r. split; [exact T|apply Permutation_refl].
  - assert (E : map origin (files (app (act' sys (ClickRetry n answer))))
                = map origin (files (app sys))).
    { apply act_origin. right. now exists n, answer. }
    assert (D : drawn (app (act' sys (ClickRetry n answer))) = drawn (app sys)).
    { cbn [act]. destruct (nth_error (files (app sys)) n) as [f|] eqn:Hn;
        [|reflexivity].
      unfold click_retry. rewrite Hn.
      destruct (retry_button_shown f); [|reflexivity]. unfold retryUpload.
      destruct (find (fun g => String.eqb (id g) (id f)) (files (app sys)));
        reflexivity. }
    rewrite D, Nat.sub_diag. cbn [released_by seq map]. rewrite !app_nil_r.
    rewrite (previews_of_origins _ _ E). split; [|apply Permutation_refl].
    apply Forall_forall. intros x Hx.
    apply (in_map previewUrl) in Hx. rewrite (previews_of_origins _ _ E) in Hx.
    apply in_map_iff in Hx. destruct Hx as [y [<- Hy]].
    rewrite Forall_forall in T. exact (T y Hy).
  - assert (E : map origin (files (app (act' sys (Resume k))))
                = map origin (files (app sys))).
    { apply act_origin. left. now exists k. }
    assert (D : drawn (app (act' sys (Resume k))) = drawn (app sys)).
    { cbn [act]. destruct (nth_error (inflight sys) k) as [[i [|u us]]|];
        reflexivity. }
    rewrite D, Nat.sub_diag. cbn [released_by seq map]. rewrite !app_nil_r.
    rewrite (previews_of_origins _ _ E). split; [|apply Permutation_refl].
    apply Forall_forall. intros x Hx.
    apply (in_map previewUrl) in Hx. rewrite (previews_of_origins _ _ E) in Hx.
    apply in_map_iff in Hx. destruct Hx as [y [<- Hy]].
    rewrite Forall_forall in T. exact (T y Hy).
Qed.

Lemma run_balance acts : forall sys,
  sound' sys -> truthy_previews sys ->
  Permutation
    (held (fold_left act' acts sys)
     ++ released randomUUID createObjectURL sys acts)
    (held sys
     ++ map createObjectURL
            (seq (drawn (app sys))
                 (drawn (app (fold_left act' acts sys)) - drawn (app sys)))).
Proof.
  induction acts as [|a acts IH]; intros sys Hs T.
  - cbn [fold_left released]. rewrite Nat.sub_diag. apply Permutation_refl.
  - cbn [fold_left released].
    destruct (turn_balance sys a Hs T) as [T1 P1].
    pose proof (IH (act' sys a)
                   (sound_act _ _ never_repeats sys a Hs) T1) as P2.
    assert (Hd1 : (drawn (app sys) <= drawn (app (act' sys a)))%nat)
      by apply act_drawn.
    assert (Hd2 : (drawn (app (act' sys a))
                   <= drawn (app (fold_left act' acts (act' sys a))))%nat).
    { clear. generalize (act' sys a) as s.
      induction acts as [|b acts IH]; intros s; [cbn; lia|].
      cbn [fold_left]. pose proof (act_drawn randomUUID createObjectURL s b).
      pose proof (IH (act' s b)). lia. }
    set (d0 := drawn (app sys)) in *.
    set (d1 := drawn (app (act' sys a))) in *.
    set (d2 := drawn (app (fold_left act' acts (act' sys a)))) in *.
    replace (d2 - d0)%nat with ((d1 - d0) + (d2 - d1))%nat by lia.
    rewrite seq_app, map_app.
    replace (d0 + (d1 - d0))%nat with d1 by lia.
    eapply Permutation_trans; [apply Permutation_app_swap_app|].
    eapply Permutation_trans; [apply Permutation_app_head; exact P2|].
    eapply Permutation_trans; [apply Permutation_app_swap_app|].
    rewrite !app_assoc. apply Permutation_app_tail. exact P1.
Qed.

(** X15.  Preview handles are accounted for while the component is
    mounted: at every turn, the handles created so far are, counted with
    multiplicity, the handles held by the records of the set together with
    the handles released by removals; so a handle is released when its
    record is removed, once, and not before.  The cleanup registered at
    mount walks the empty set of the first render and releases none, so the
    handles held at unmount stay unreleased. *)
Theorem preview_handles_are_accounted_for (acts : list action) :
  Permutation
    (held (reached' acts) ++ released randomUUID createObjectURL booted acts)
    (map createObjectURL (seq 0 (drawn (app (reached' acts))))) /\
  unmount = [].
Proof.
  split; [|reflexivity].
  pose proof (run_balance acts booted (sound_booted randomUUID)) as H.
  cbn [booted held app initial files drawn map app] in H.
  rewrite Nat.sub_0_r in H. apply H. constructor.
Qed.

End Handles.

(** ** The keys the backend issues *)

Lemma length_append a b :
  String.length (a ++ b) = (String.length a + String.length b)%nat.
Proof. induction a as [|c a IH]; cbn; [reflexivity|now rewrite IH]. Qed.

Lemma append_cancel_l p a b : p ++ a = p ++ b -> a = b.
Proof.
  induction p as [|c p IH]; cbn [append]; intros E; [exact E|].
  injection E as E. apply IH, E.
Qed.

Lemma append_cancel_r s : forall a b, a ++ s = b ++ s -> a = b.
Proof.
  induction a as [|c a IH]; intros [|d b] E; cbn [append] in E.
  - reflexivity.
  - exfalso. apply (f_equal String.length) in E.
    cbn [String.length] in E. rewrite length_append in E. lia.
  - exfalso. apply (f_equal String.length) in E.
    cbn [String.length] in E. rewrite length_append in E. lia.
  - injection E as -> E. f_equal. apply IH, E.
Qed.

Lemma dashless_uint d : dashless (NilEmpty.string_of_uint d).
Proof.
  induction d; cbn [NilEmpty.string_of_uint dashless];
    try exact I; (split; [discriminate|assumption]).
Qed.

Lemma dashless_decimal n : dashless (Backend.decimal n).
Proof.
  unfold Backend.decimal, NilZero.string_of_uint.
  destruct (N.to_uint n) eqn:E; try (rewrite <- E; apply dashless_uint).
  cbn. split; [discriminate|exact I].
Qed.

Lemma dash_splits s1 : forall s2 x y,
  dashless s1 -> dashless s2 ->
  s1 ++ String "-" x = s2 ++ String "-" y -> s1 = s2 /\ x = y.
Proof.
  induction s1 as [|c s1 IH]; intros [|d s2] x y H1 H2 E; cbn [append] in E.
  - injection E as E. now split.
  - injection E as E _. destruct H2 as [H2 _]. now contradiction H2.
  - injection E as E _. destruct H1 as [H1 _]. now contradiction H1.
  - injection E as Ec E. destruct H1 as [_ H1]. destruct H2 as [_ H2].
    destruct (IH s2 x y H1 H2 E) as [-> ->]. now subst.
Qed.

(** X16.  Two successful replies of [POST /get-upload-url] carry the same
    key exactly when they were made at the same millisecond for the same
    file name: uploads of files sharing a name get different keys unless
    they are authorized within one millisecond. *)
Theorem issued_keys_tell_requests_apart
        (now1 now2 : N) (url1 url2 filename1 filename2 filetype1 filetype2 : string) :
  Backend.key (Backend.get_upload_url now1 (Some url1) filename1 filetype1)
  = Backend.key (Backend.get_upload_url now2 (Some url2) filename2 filetype2)
  <-> now1 = now2 /\ filename1 = filename2.
Proof.
  cbn [Backend.get_upload_url Backend.key]. split.
  - intros E. injection E as E.
    destruct (dash_splits _ _ _ _ (dashless_decimal now1)
                          (dashless_decimal now2) E) as [En Ef].
    split; [apply decimal_injective, En|exact Ef].
  - intros [-> ->]. reflexivity.
Qed.

(** ** The stored location and the confirmed one *)

(** X17.  For a key issued by [POST /get-upload-url], an attempt whose
    transfer resolves leaves its record in [success] with the location
    "https://undefined.s3.amazonaws.com/" followed by the key; that stored
    location and the [imageUrl] that [POST /confirm-upload] answers for the
    key both end with the key, and they are the same text exactly when the
    backend's bucket prints as "undefined". *)
Theorem stored_and_confirmed_locations
        (now : N) (presignedurl reason : string) (evs : list ProgressEvent)
        (fileInfo : FileInfo) (bucket : jsfield)
        (prev : list FileInfo) (n : nat) (g : FileInfo) :
  nth_error prev n = Some g -> id g = id fileInfo ->
  let reply := Backend.get_upload_url now (Some presignedurl)
                                      (name fileInfo) (type fileInfo) in
  let net := mkNetwork (inr (received reason reply)) evs None in
  let confirmed :=
    Confirm.imageUrl (Confirm.confirm_upload bucket (Backend.key reply)) in
  exists r stored,
    nth_error (run (attempt net fileInfo) prev) n = Some r /\
    status r = success /\ url r = Some stored /\
    stored = "https://undefined.s3.amazonaws.com/"
             ++ "uploads/" ++ Backend.decimal now ++ "-" ++ name fileInfo /\
    ends_with stored (template (Backend.key reply)) /\
    ends_with confirmed (template (Backend.key reply)) /\
    (stored = confirmed <-> template bucket = "undefined").
Proof.
  intros Hn Hi. cbn zeta.
  set (key := "uploads/" ++ Backend.decimal now ++ "-" ++ name fileInfo).
  destruct (succeeded_attempt _ fileInfo _ prev n g
              (backend_location now presignedurl reason evs fileInfo) Hn Hi)
    as [r [Hr [Hs [_ Hu]]]].
  exists r, ("https://" ++ "undefined" ++ ".s3.amazonaws.com/" ++ key).
  split; [exact Hr|]. split; [exact Hs|]. split; [exact Hu|].
  split; [reflexivity|].
  change (template (Backend.key
                      (Backend.get_upload_url now (Some presignedurl)
                         (name fileInfo) (type fileInfo)))) with key.
  change (Confirm.imageUrl
            (Confirm.confirm_upload bucket
               (Backend.key (Backend.get_upload_url now (Some presignedurl)
                               (name fileInfo) (type fileInfo)))))
    with ("https://" ++ template bucket ++ ".s3.amazonaws.com/" ++ key).
  split; [|split; [|split]].
  - exists ("https://" ++ "undefined" ++ ".s3.amazonaws.com/").
    now rewrite !append_assoc.
  - exists ("https://" ++ template bucket ++ ".s3.amazonaws.com/").
    now rewrite !append_assoc.
  - intros E. apply append_cancel_l in E. apply append_cancel_r in E.
    now symmetry.
  - intros ->. reflexivity.
Qed.

(** ** The form version: [handleSubmit] *)

Module SubmitFacts.

Import Submit.

Lemma finish_pushes filename answer :
  finish filename answer = ([Push (result_of filename answer)], inr tt).
Proof.
  unfold finish, result_of.
  destruct answer as [e|response]; [reflexivity|].
  cbn [lift bind]. destruct (ok response); cbn [negb]; [|reflexivity].
  destruct (json response) as [e|presignedUrl]; reflexivity.
Qed.

Lemma for_each_returns {A} (body : A -> T unit) (tr : A -> list effect) l :
  (forall a, body a = (tr a, inr tt)) ->
  for_each l body = (flat_map tr l, inr tt).
Proof.
  intros H. induction l as [|a l IH]; [reflexivity|].
  cbn [for_each flat_map]. rewrite H. cbn [bind]. rewrite IH. reflexivity.
Qed.

Lemma pushed_app a b : pushed (a ++ b) = (pushed a ++ pushed b)%list.
Proof.
  induction a as [|x a IH]; [reflexivity|].
  destruct x; cbn; now rewrite IH.
Qed.

Lemma pushed_requests (l : list (string * string)) :
  pushed (flat_map (fun f => [Request (fst f) (snd f)]) l) = [].
Proof. induction l as [|f l IH]; [reflexivity|exact IH]. Qed.

Lemma pushed_results (l : list result) : pushed (map Push l) = l.
Proof. induction l as [|r l IH]; cbn; [reflexivity|now rewrite IH]. Qed.

Lemma results_in_file_order {B} (h : nat -> string * string -> B) l : forall pre,
  flat_map (fun k => match nth_error (pre ++ l) k with
                     | Some f => [h k f]
                     | None => []
                     end)
           (seq (List.length pre) (List.length l))
  = map (fun kf => h (fst kf) (snd kf))
        (combine (seq (List.length pre) (List.length l)) l).
Proof.
  induction l as [|x l IH]; intros pre; [reflexivity|].
  cbn [List.length seq flat_map combine map fst snd].
  rewrite nth_error_app2, Nat.sub_diag by lia. cbn [nth_error].
  change ([h (List.length pre) x] ++ ?r)%list with (h (List.length pre) x :: r).
  specialize (IH (pre ++ [x])%list).
  rewrite <- app_assoc, length_app in IH. cbn [List.length app] in IH.
  rewrite Nat.add_1_r in IH. cbn [app]. f_equal. exact IH.
Qed.

(** X18.  [handleSubmit] with no file selected only sets the advisory
    "Please select at least one file" and sends nothing.  Otherwise it
    sends one authorization request per file, in file order, pushes the
    result of each task as it completes, returns normally and never sets
    the advisory, whatever the answers; when every task completes once,
    the results are, up to order, one per file: the parsed body for an
    [ok] response that parses, and the fixed failure
    "Failed to get presigned url" for every other answer. *)
Theorem submit_collects_one_result_per_file
        (selected : list (string * string))
        (answers : nat -> thrown + Response) (order : list nat) :
  (selected = [] ->
   handleSubmit selected answers order
   = ([SetFileError "Please select at least one file"], inr tt)) /\
  (selected <> [] ->
   handleSubmit selected answers order
   = ((map (fun f => Request (fst f) (snd f)) selected
       ++ map Push
            (flat_map (fun k => match nth_error selected k with
                                | Some f => [result_of (fst f) (answers k)]
                                | None => []
                                end) order))%list,
      inr tt)) /\
  (selected <> [] ->
   Permutation order (seq 0 (List.length selected)) ->
   Permutation
     (pushed (fst (handleSubmit selected answers order)))
     (map (fun kf => result_of (fst (snd kf)) (answers (fst kf)))
          (combine (seq 0 (List.length selected)) selected))).
Proof.
  assert (E : selected <> [] ->
              handleSubmit selected answers order
              = ((map (fun f => Request (fst f) (snd f)) selected
                  ++ map Push
                       (flat_map (fun k => match nth_error selected k with
                                           | Some f => [result_of (fst f) (answers k)]
                                           | None => []
                                           end) order))%list,
                 inr tt)).
  { intros Hne. unfold handleSubmit.
    destruct selected as [|f0 rest]; [contradiction|].
    cbn [List.length Nat.eqb].
    rewrite (for_each_returns _ (fun f => [Request (fst f) (snd f)]))
      by reflexivity.
    cbn [bind].
    rewrite (for_each_returns _
               (fun k => match nth_error (f0 :: rest) k with
                         | Some f => [Push (result_of (fst f) (answers k))]
                         | None => []
                         end)).
    2:{ intros k. destruct (nth_error (f0 :: rest) k) as [f|];
          [apply finish_pushes|reflexivity]. }
    cbn [try_catch].
    assert (R : forall l : list (string * string),
              flat_map (fun f => [Request (fst f) (snd f)]) l
              = map (fun f => Request (fst f) (snd f)) l).
    { induction l as [|f l IH]; [reflexivity|].
      cbn [flat_map map app]. now rewrite IH. }
    assert (P : forall l,
              flat_map (fun k => match nth_error (f0 :: rest) k with
                                 | Some f => [Push (result_of (fst f) (answers k))]
                                 | None => []
                                 end) l
              = map Push
                    (flat_map (fun k => match nth_error (f0 :: rest) k with
                                        | Some f => [result_of (fst f) (answers k)]
                                        | None => []
                                        end) l)).
    { induction l as [|k l IH]; [reflexivity|].
      cbn [flat_map]. rewrite map_app, IH. f_equal.
      destruct (nth_error (f0 :: rest) k); reflexivity. }
    rewrite R, P. reflexivity. }
  split; [|split].
  - intros ->. reflexivity.
  - exact E.
  - intros Hne Hp. rewrite (E Hne). cbn [fst].
    rewrite pushed_app, pushed_results.
    replace (pushed (map (fun f => Request (fst f) (snd f)) selected))
      with (@nil result)
      by (clear; induction selected as [|f l IH]; [reflexivity|exact IH]).
    cbn [app].
    pose proof (results_in_file_order
                  (fun k f => result_of (fst f) (answers k)) selected [])
      as Hr.
    cbn [app List.length] in Hr. cbn beta in Hr. rewrite <- Hr.
    apply Permutation_flat_map, Hp.
Qed.

End SubmitFacts.

(** ** The further properties at concrete inputs *)

Lemma blob_truthy n : blob n <> "".
Proof. unfold blob. cbn [append]. discriminate. Qed.

Lemma unusable_authorization_is_an_error_witness :
  attempt offline record_a
  = [Updater "id-0" SetUploading; Fetch "a.png" "image/png";
     Updater "id-0" (SetError "Failed to fetch")].
Proof.
  exact (proj1 (unusable_authorization_is_an_error offline record_a
                  (ErrorInstance "Failed to fetch") (or_introl eq_refl))).
Defined.

Lemma attempt_always_settles_witness :
  exists r,
    nth_error (run (attempt breaking record_a) [record_a]) 0 = Some r /\
    ((status r = success /\ progress r = Num 100 /\
      exists location, url r = Some location /\
                       outcome_of breaking = Succeeded location) \/
     (status r = error /\ progress r = Num 0 /\
      exists message, errorMessage r = Some message /\
                      outcome_of breaking = Failed message)).
Proof.
  exact (attempt_always_settles breaking record_a [record_a] 0%nat record_a
           eq_refl eq_refl).
Defined.

Lemma attempts_of_different_records_commute_witness :
  id record_a <> id record_d /\
  run (attempt smooth record_a ++ attempt breaking record_d)
      [record_a; record_d]
  = run (attempt breaking record_d ++ attempt smooth record_a)
        [record_a; record_d].
Proof.
  assert (H : id record_a <> id record_d) by discriminate.
  split; [exact H|].
  exact (proj1 (proj2 (attempts_of_different_records_commute
                         smooth breaking record_a record_d H))
               [record_a; record_d]).
Defined.

Lemma formatFileSize_reads_to_the_nearest_tenth_witness :
  1536 < 2 ^ 53 /\
  1024 <= 1536 < 1024 * 1024 /\
  exists t,
    formatFileSize 1536
    = (Backend.decimal (t / 10) ++ "." ++ Backend.decimal (t mod 10)) ++ " KB" /\
    10 <= t <= 10240 /\
    1024 * t <= 10 * 1536 + 512 /\ 10 * 1536 < 1024 * t + 512.
Proof.
  assert (H : 1024 <= 1536 < 1024 * 1024) by (split; [discriminate|reflexivity]).
  assert (B : 1536 < 2 ^ 53) by reflexivity.
  split; [exact B|]. split; [exact H|].
  exact (proj1 (proj2 (formatFileSize_reads_to_the_nearest_tenth 1536 B)) H).
Defined.

Lemma stored_and_confirmed_locations_witness :
  exists r stored,
    nth_error (run (attempt smooth record_a) [record_a]) 0 = Some r /\
    status r = success /\ url r = Some stored /\
    stored = "https://undefined.s3.amazonaws.com/uploads/123-a.png" /\
    ends_with stored "uploads/123-a.png" /\
    ends_with "https://media.s3.amazonaws.com/uploads/123-a.png"
              "uploads/123-a.png" /\
    (stored = "https://media.s3.amazonaws.com/uploads/123-a.png"
     <-> "media" = "undefined").
Proof.
  exact (stored_and_confirmed_locations 123 "https://u" "OK"
           [mkProgress 1000 (Some 1000)] record_a (Str "media")
           [record_a] 0%nat record_a eq_refl eq_refl).
Defined.

Lemma just_under_a_mebibyte_reads_1024_KB_witness :
  1048525 <= 1048575 < 1048576 /\ formatFileSize 1048575 = "1024.0 KB".
Proof.
  assert (H : 1048525 <= 1048575 < 1048576)
    by (split; [discriminate|reflexivity]).
  split; [exact H|].
  exact (just_under_a_mebibyte_reads_1024_KB 1048575 H).
Defined.

Lemma remove_takes_out_one_card_witness :
  map id (files (app two_cards)) = ["id-0"; "id-1"] /\
  map id (files (app (act uuid blob two_cards (ClickRemove 0)))) = ["id-1"] /\
  files (app (act uuid blob two_cards (ClickRemove 0)))
  = (firstn 0 (files (app two_cards)) ++ skipn 1 (files (app two_cards)))%list.
Proof.
  split; [reflexivity|]. split; [reflexivity|].
  exact (proj1 (remove_takes_out_one_card uuid blob uuid_never_repeats
                  two_cards_run 0%nat
                  (mkFileInfo a_png "blob:0" "id-0" "a.png" 1000 "image/png"
                     success (Num 100)
                     (Some "https://undefined.s3.amazonaws.com/uploads/123-a.png")
                     None)
                  eq_refl)).
Defined.

Lemma intake_keeps_the_set_witness :
  forallb (fun c => negb (within_policy c)) [b_txt; c_mp4] = true /\
  files (app (act uuid blob two_cards (Pick [b_txt; c_mp4] (fun _ => smooth))))
  = files (app two_cards) /\
  files (app (act uuid blob two_cards (Pick [a_png] (fun _ => smooth))))
  = (files (app two_cards)
     ++ [mkFileInfo a_png "blob:2" "id-2" "a.png" 1000 "image/png"
                    uploading (Num 0) None None])%list.
Proof.
  split; [reflexivity|]. split.
  - exact (proj1 (proj2 (proj2 (intake_keeps_the_set uuid blob
                                  uuid_never_repeats two_cards_run
                                  [b_txt; c_mp4] (fun _ => smooth)))
                        eq_refl)).
  - exact (proj1 (intake_keeps_the_set uuid blob uuid_never_repeats
                    two_cards_run [a_png] (fun _ => smooth))).
Defined.

Lemma identifiers_are_never_reused_witness :
  map id (files (app (reached uuid blob
                        (two_cards_run
                         ++ [ClickRemove 0; Pick [a_png] (fun _ => smooth)]))))
  = ["id-1"; "id-2"] /\
  origin (spread SetUploading record_d)
  = origin (mkFileInfo d_gif "blob:1" "id-1" "d.gif" 2048 "image/gif"
                       error (Num 0) None (Some "Network Error")).
Proof.
  split; [reflexivity|].
  apply (proj2 (identifiers_are_never_reused uuid blob uuid_never_repeats
                  [Pick [a_png; d_gif]
                        (fun k => if Nat.eqb k 0 then smooth else breaking)]
                  [Resume 0; Resume 1; Resume 0; Resume 1;
                   ClickRemove 0; Pick [a_png] (fun _ => smooth)]
                  (spread SetUploading record_d)
                  (mkFileInfo d_gif "blob:1" "id-1" "d.gif" 2048 "image/gif"
                     error (Num 0) None (Some "Network Error")))).
  - right. left. reflexivity.
  - left. reflexivity.
  - reflexivity.
Defined.

Lemma uploading_means_one_attempt_witness :
  inflight (reached uuid blob [Pick [a_png] (fun _ => smooth)])
  = [("id-0", [SetProgress (Num 100);
               SetSuccess "https://undefined.s3.amazonaws.com/uploads/123-a.png"])] /\
  (status (spread SetUploading record_a) = uploading
   <-> busy (reached uuid blob [Pick [a_png] (fun _ => smooth)]) "id-0").
Proof.
  split; [reflexivity|].
  exact (proj1 (uploading_means_one_attempt uuid blob uuid_never_repeats
                  [Pick [a_png] (fun _ => smooth)]
                  (spread SetUploading record_a)
                  (or_introl eq_refl))).
Defined.

Lemma resuming_an_attempt_settles_it_witness :
  nth_error
    (inflight
       (fold_left (act uuid blob) (repeat (Resume 0) 2)
                  (reached uuid blob [Pick [a_png] (fun _ => smooth)]))) 0
  = Some ("id-0", []) /\
  map status
      (files (app (fold_left (act uuid blob) (repeat (Resume 0) 2)
                     (reached uuid blob [Pick [a_png] (fun _ => smooth)]))))
  = [success].
Proof.
  split; [|reflexivity].
  refine (proj1 (resuming_an_attempt_settles_it uuid blob uuid_never_repeats
                   [Pick [a_png] (fun _ => smooth)] 0%nat "id-0"
                   [SetProgress (Num 100);
                    SetSuccess "https://undefined.s3.amazonaws.com/uploads/123-a.png"]
                   eq_refl _)).
  discriminate.
Defined.

Lemma retry_ends_as_its_network_decides_witness :
  map status (files refused) = [error] /\
  exists r,
    nth_error
      (files (app (fold_left (act uuid blob) (repeat (Resume 1) 2)
                     (act uuid blob (reached uuid blob refused_run)
                          (ClickRetry 0 smooth))))) 0
    = Some r /\
    status r = success /\ progress r = Num 100 /\
    url r = Some "https://undefined.s3.amazonaws.com/uploads/123-a.png".
Proof.
  split; [reflexivity|].
  destruct (retry_ends_as_its_network_decides uuid blob uuid_never_repeats
              refused_run 0%nat
              (mkFileInfo a_png "blob:0" "id-0" "a.png" 1000 "image/png"
                 error (Num 0) None
                 (Some "Failed to get upload URL: Internal Server Error"))
              smooth eq_refl eq_refl) as [r [Hr [_ [Hok _]]]].
  exists r. split; [exact Hr|].
  exact (Hok "https://undefined.s3.amazonaws.com/uploads/123-a.png" eq_refl).
Defined.

Lemma preview_handles_are_accounted_for_witness :
  held (reached uuid blob (two_cards_run ++ [ClickRemove 0])) = ["blob:1"] /\
  released uuid blob booted (two_cards_run ++ [ClickRemove 0]) = ["blob:0"] /\
  Permutation
    (held (reached uuid blob (two_cards_run ++ [ClickRemove 0]))
     ++ released uuid blob booted (two_cards_run ++ [ClickRemove 0]))
    (map blob (seq 0 2)).
Proof.
  split; [reflexivity|]. split; [reflexivity|].
  exact (proj1 (preview_handles_are_accounted_for uuid blob uuid_never_repeats
                  blob_truthy (two_cards_run ++ [ClickRemove 0]))).
Defined.

Lemma submit_collects_one_result_per_file_witness :
  Permutation [1; 0]%nat (seq 0 2) /\
  Permutation
    (Submit.pushed
       (fst (Submit.handleSubmit
               [("a.png", "image/png"); ("b.gif", "image/gif")]
               (fun k => if Nat.eqb k 0 then inr authorized_a else inr refused_a)
               [1; 0]%nat)))
    [Submit.Presigned "a.png"
       (Undefined, Str "uploads/123-a.png", Str "https://u");
     Submit.Unavailable "b.gif" "Failed to get presigned url"].
Proof.
  assert (H : Permutation [1; 0]%nat (seq 0 2)) by apply perm_swap.
  split; [exact H|].
  refine (proj2 (proj2 (SubmitFacts.submit_collects_one_result_per_file
                          [("a.png", "image/png"); ("b.gif", "image/gif")]
                          (fun k => if Nat.eqb k 0 then inr authorized_a
                                    else inr refused_a)
                          [1; 0]%nat)) _ H).
  discriminate.
Defined.
